(** * Errands: importing a calendar file as a task list

    A shallow embedding of [TaskLists._add_actions._import._confirm]
    (errands/widgets/task_lists/task_lists.py, lines 46-113) and of the
    Python and icalendar operations it calls, followed by the properties
    of the import that the specification states. *)

From Stdlib Require Import ZArith Ascii String DecimalString Lia.
From stdpp Require Import base option list strings gmap.

Local Open Scope string_scope.
Local Open Scope Z_scope.
Local Open Scope list_scope.

(** ** Python built-ins used by the import *)

Module Py.

(** Exceptions that can leave the import. *)
Inductive exn : Type :=
| ValueError
| TypeError
| AttributeError
| OSError
| StoreError.

(** Result of evaluating an expression: a value or a raised exception. *)
Inductive result (A : Type) : Type :=
| Ok (a : A)
| Raise (e : exn).
Arguments Ok {A} a.
Arguments Raise {A} e.

Definition rbind {A B} (r : result A) (k : A → result B) : result B :=
  match r with
  | Ok a => k a
  | Raise e => Raise e
  end.

(** [c in chars] for a one-character [c]. *)
Fixpoint char_in (c : ascii) (chars : string) : bool :=
  match chars with
  | EmptyString => false
  | String d chars' => Ascii.eqb c d || char_in c chars'
  end.

(** [s.lstrip(chars)]: drop leading characters that occur in [chars]. *)
Fixpoint lstrip (chars s : string) : string :=
  match s with
  | EmptyString => EmptyString
  | String c s' => if char_in c chars then lstrip chars s' else s
  end.

(** [s.rstrip(chars)]: drop trailing characters that occur in [chars].
    [chars] is a set of characters, not a suffix. *)
Fixpoint rstrip (chars s : string) : string :=
  match s with
  | EmptyString => EmptyString
  | String c s' =>
      match rstrip chars s' with
      | EmptyString => if char_in c chars then EmptyString else String c EmptyString
      | r => String c r
      end
  end.

(** [s.strip(chars)]: both ends. *)
Definition strip (chars s : string) : string := lstrip chars (rstrip chars s).

(** [sep.join(items)]. *)
Fixpoint join (sep : string) (items : list string) : string :=
  match items with
  | [] => ""
  | [x] => x
  | x :: rest => x +:+ sep +:+ join sep rest
  end.

(** [str(n)] for an integer. *)
Definition str_int (n : Z) : string := NilZero.string_of_int (Z.to_int n).

Definition is_digit (c : ascii) : bool :=
  let n := nat_of_ascii c in (48 <=? n)%nat && (n <=? 57)%nat.

Definition digit_value (c : ascii) : Z := Z.of_nat (nat_of_ascii c) - 48.

(** Digits of an integer literal; single underscores may separate
    digits. [prev] tells whether the previous character was a digit. *)
Fixpoint digits_value (acc : Z) (prev : bool) (s : string) : option Z :=
  match s with
  | EmptyString => if prev then Some acc else None
  | String c s' =>
      if is_digit c then digits_value (10 * acc + digit_value c) true s'
      else if Ascii.eqb c "_" && prev then digits_value acc false s'
      else None
  end.

(** ASCII white space, as [str.strip()] and [int()] see it. *)
Definition whitespace : string :=
  String (ascii_of_nat 9) (String (ascii_of_nat 10) (String (ascii_of_nat 11)
  (String (ascii_of_nat 12) (String (ascii_of_nat 13) (String (ascii_of_nat 28)
  (String (ascii_of_nat 29) (String (ascii_of_nat 30) (String (ascii_of_nat 31)
  " ")))))))).

(** [int(s)] for a string, base 10, on ASCII input: surrounding white
    space and one sign are accepted; anything else is a [ValueError]. *)
Definition int_str (s : string) : result Z :=
  let t := strip whitespace s in
  let parsed :=
    match t with
    | String "+" r => digits_value 0 false r
    | String "-" r => Z.opp <$> digits_value 0 false r
    | _ => digits_value 0 false t
    end in
  match parsed with
  | Some n => Ok n
  | None => Raise ValueError
  end.

Fixpoint drop (n : nat) (s : string) : string :=
  match n, s with
  | O, _ => s
  | S n', String _ s' => drop n' s'
  | S _, EmptyString => EmptyString
  end.

Fixpoint replace_fuel (fuel : nat) (old new s : string) : string :=
  match fuel with
  | O => s
  | S fuel' =>
      match s with
      | EmptyString => EmptyString
      | String c s' =>
          if String.prefix old s
          then new +:+ replace_fuel fuel' old new (drop (String.length old) s)
          else String c (replace_fuel fuel' old new s')
      end
  end.

(** [s.replace(old, new)] for a non-empty [old]: left to right, without
    overlap. *)
Definition replace (old new s : string) : string :=
  replace_fuel (String.length s) old new s.

(** Whether the last character of [s] is outside [chars]; an empty
    string has no last character to strip. *)
Fixpoint last_kept (chars s : string) : bool :=
  match s with
  | EmptyString => true
  | String c EmptyString => negb (char_in c chars)
  | String _ s' => last_kept chars s'
  end.

End Py.

Export Py.

(** ** icalendar values and components *)

Module ICal.

Definition backslash : string := String (ascii_of_nat 92) "".
Definition LF : string := String (ascii_of_nat 10) "".
Definition CRLF : string := String (ascii_of_nat 13) LF.

(** [escape_char(text)]: the TEXT escaping applied by [vText.to_ical()];
    the six replacements run in this order. *)
Definition escape_char (text : string) : string :=
  replace LF (backslash +:+ "n")
    (replace CRLF (backslash +:+ "n")
      (replace "," (backslash +:+ ",")
        (replace ";" (backslash +:+ ";")
          (replace backslash (backslash +:+ backslash)
            (replace (backslash +:+ "N") LF text))))).

(** One parsed property value. [vDDDTypes] (date, date-time, duration,
    period) is kept as the text its [to_ical()] produces. *)
Inductive prop : Type :=
| vText (s : string)
| vInt (n : Z)
| vDDDTypes (ical : string)
| vCategory (cats : list string).

(** What [component.get(key)] holds: the value itself, or a Python list
    of values when the property occurs more than once. *)
Inductive value : Type :=
| Single (p : prop)
| Multiple (ps : list prop).

(** [p.to_ical().decode("utf-8")]. *)
Definition to_ical (p : prop) : string :=
  match p with
  | vText s => escape_char s
  | vInt n => str_int n
  | vDDDTypes ical => ical
  | vCategory cats => join "," (escape_char <$> cats)
  end.

(** [v.to_ical().decode("utf-8")]: a list has no such attribute. *)
Definition value_to_ical (v : value) : result string :=
  match v with
  | Single p => Ok (to_ical p)
  | Multiple _ => Raise AttributeError
  end.

(** [p.cats]: the categories, each a [vText]. *)
Definition cats (p : prop) : result (list prop) :=
  match p with
  | vCategory cs => Ok (vText <$> cs)
  | _ => Raise AttributeError
  end.

(** [v != ""]: only text compares equal to a string. *)
Definition ne_empty (v : value) : bool :=
  match v with
  | Single (vText s) => negb (String.eqb s "")
  | _ => true
  end.

(** [v == s] for a string [s]. *)
Definition eq_str (v : value) (s : string) : bool :=
  match v with
  | Single (vText t) => String.eqb t s
  | _ => false
  end.

(** [int(v)]. *)
Definition int (v : value) : result Z :=
  match v with
  | Single (vInt n) => Ok n
  | Single (vText s) => int_str s
  | _ => Raise TypeError
  end.

#[local] Set Warnings "-register-all".

(** A component of the parsed document: its name, its properties by
    upper-case key, and its subcomponents in document order. *)
Inductive Component : Type :=
  mkComponent (name : string) (props : gmap string value)
              (subcomponents : list Component).

Definition name (c : Component) : string :=
  match c with mkComponent n _ _ => n end.
Definition props (c : Component) : gmap string value :=
  match c with mkComponent _ p _ => p end.
Definition subcomponents (c : Component) : list Component :=
  match c with mkComponent _ _ subs => subs end.

(** [c.get(key, default)]. *)
Definition get (c : Component) (key : string) (dflt : value) : value :=
  default dflt (props c !! key).

(** [c.get(key, None)]. *)
Definition get_opt (c : Component) (key : string) : option value :=
  props c !! key.

(** [c.walk(name)]: the component itself when its name matches, then
    the matching components below it, depth first in document order. *)
Fixpoint walk (nm : string) (c : Component) : list Component :=
  match c with
  | mkComponent n _ subs =>
      (if String.eqb n nm then [c] else []) ++ flat_map (walk nm) subs
  end.

End ICal.

Export ICal.

Section PyStr.

(** [repr(p)] of a property value: the interpreter's rendering of the
    object, which the import never inspects. *)
Variable repr : prop → string.

(** [str(v)]: text is itself, an integer its decimal form, any other
    object its [repr]; a list is the bracketed [repr]s of its items. *)
Definition str (v : value) : string :=
  match v with
  | Single (vText s) => s
  | Single (vInt n) => str_int n
  | Single p => repr p
  | Multiple ps => "[" +:+ join ", " (repr <$> ps) +:+ "]"
  end.

End PyStr.

(** ** The world the import runs in *)

(** A row of the [lists] table, with the keys the source reads from a
    list (lines 294-296): a deleted list stays in the table, flagged. *)
Record ListRow : Type := mkListRow {
  list_row_uid : string;
  list_row_name : string;
  list_row_deleted : bool;
}.

(** The keyword arguments of one [UserData.add_task(...)] call, with the
    types the call site gives them. *)
Record TaskFields : Type := mkTaskFields {
  color : value;
  completed : bool;
  end_date : string;
  list_uid : string;
  notes : string;
  parent : string;
  percent_complete : Z;
  priority : Z;
  start_date : string;
  tags : string;
  text : string;
  uid : option value;
}.

(** A row of the [tasks] table: the identifier the task is stored under
    and the fields it was created with. *)
Record TaskRow : Type := mkTaskRow {
  task_row_uid : string;
  task_row_fields : TaskFields;
}.

(** Calls that are visible from outside the import. *)
Inductive Event : Type :=
| LogDebug (msg : string)
| UpdateUi
| AddToast (msg : string)
| SyncSync.

#[global] Instance event_eq_dec : EqDecision Event.
Proof. solve_decision. Defined.

(** The file chosen in the dialog. *)
Record GFile : Type := mkGFile {
  get_path : string;
  get_basename : string;
}.

(** Everything the import reads or changes. [uuids] lists the identifiers
    [uuid4()] returns, in order, [drawn] counts those already returned;
    [faults] tells which store mutations fail, [writes] counts the
    mutations attempted. *)
Record World : Type := mkWorld {
  files : gmap string string;
  lists : list ListRow;
  tasks : list TaskRow;
  uuids : nat → string;
  drawn : nat;
  faults : nat → bool;
  writes : nat;
  trace : list Event;
}.

Definition set_lists (ls : list ListRow) (w : World) : World :=
  mkWorld (files w) ls (tasks w) (uuids w) (drawn w) (faults w) (writes w) (trace w).
Definition set_tasks (ts : list TaskRow) (w : World) : World :=
  mkWorld (files w) (lists w) ts (uuids w) (drawn w) (faults w) (writes w) (trace w).
Definition set_drawn (n : nat) (w : World) : World :=
  mkWorld (files w) (lists w) (tasks w) (uuids w) n (faults w) (writes w) (trace w).
Definition set_writes (n : nat) (w : World) : World :=
  mkWorld (files w) (lists w) (tasks w) (uuids w) (drawn w) (faults w) n (trace w).
Definition set_trace (t : list Event) (w : World) : World :=
  mkWorld (files w) (lists w) (tasks w) (uuids w) (drawn w) (faults w) (writes w) t.

(** A statement: it runs in a world and leaves a world, with a value or
    a raised exception. What was done before an exception stays done. *)
Definition M (A : Type) : Type := World → result A * World.

Definition ret {A} (a : A) : M A := λ w, (Ok a, w).

Definition raise {A} (e : exn) : M A := λ w, (Raise e, w).

Definition bind {A B} (m : M A) (k : A → M B) : M B :=
  λ w, match m w with
       | (Ok a, w') => k a w'
       | (Raise e, w') => (Raise e, w')
       end.

Definition lift {A} (r : result A) : M A := λ w, (r, w).

Declare Scope stmt_scope.
Delimit Scope stmt_scope with stmt.
Notation "x <- m ;; k" := (bind m (λ x, k))
  (at level 20, m at level 99, k at level 200, right associativity) : stmt_scope.
Notation "m ;; k" := (bind m (λ _, k))
  (at level 100, k at level 200, right associativity) : stmt_scope.
Local Open Scope stmt_scope.

(** [for x in items: body(x)]. *)
Fixpoint for_each {A} (items : list A) (body : A → M unit) : M unit :=
  match items with
  | [] => ret tt
  | x :: rest => body x ;; for_each rest body
  end.

Definition emit (e : Event) : M unit :=
  λ w, (Ok tt, set_trace (trace w ++ [e]) w).

(** [str(uuid4())]: the next identifier. *)
Definition uuid4 : M string :=
  λ w, (Ok (uuids w (drawn w)), set_drawn (S (drawn w)) w).

(** [open(path, "r").read()]. *)
Definition read_text (path : string) : M string :=
  λ w, match files w !! path with
       | Some contents => (Ok contents, w)
       | None => (Raise OSError, w)
       end.

Module Log.
Definition debug (msg : string) : M unit := emit (LogDebug msg).
End Log.

Module Sync.
Definition sync : M unit := emit SyncSync.
End Sync.

Module UserData.

(** [run_sql("SELECT name FROM lists", fetch=True)]: the query has no
    condition, so there is one row per list whatever its [deleted] flag;
    each row is the name. *)
Definition run_sql_select_name_from_lists : M (list string) :=
  λ w, (Ok (list_row_name <$> lists w), w).

(** Modelled from the spec: the store's mutations are not under src/.
    A mutation is one attempt to write; the store may refuse it
    ([StoreError]), and nothing is undone when it does. *)
Definition mutation : M unit :=
  λ w, let w' := set_writes (S (writes w)) w in
       if faults w (writes w) then (Raise StoreError, w') else (Ok tt, w').

(** Modelled from the spec: [UserData.add_list] is not under src/
    (create list(name) -> uid). A new row with a generated identifier
    and [deleted] false; the name column holds text. *)
Definition add_list (name : value) : M string :=
  mutation ;;
  match name with
  | Single (vText n) =>
      uid <- uuid4 ;;
      (λ w, (Ok uid, set_lists (lists w ++ [mkListRow uid n false]) w))
  | _ => raise StoreError
  end.

(** Modelled from the spec: [UserData.add_task] is not under src/
    (create task(fields) -> uid). The task is stored under the given
    identifier; an absent or empty one is replaced by a generated
    identifier. *)
Definition add_task (fields : TaskFields) : M string :=
  mutation ;;
  uid <- match uid fields with
         | None => uuid4
         | Some (Single (vText u)) => if String.eqb u "" then uuid4 else ret u
         | Some _ => raise StoreError
         end ;;
  (λ w, (Ok uid, set_tasks (tasks w ++ [mkTaskRow uid fields]) w)).

(** [UserData.get_lists_as_dicts()]: every list as a dict with the keys
    [uid], [name] and [deleted]; line 294 filters the deleted ones out of
    what this returns, so they are part of it. *)
Definition get_lists_as_dicts : M (list ListRow) :=
  λ w, (Ok (lists w), w).

End UserData.

(** ** The import *)

(** How [_confirm] ends when no exception leaves it. Python returns
    [None] both times; the tag tells the early return from the end. *)
Inductive outcome : Type :=
| Cancelled
| Imported.

Module TaskLists.
Section Confirm.

(** [Calendar.from_ical(text)]: the parser of the icalendar library. *)
Variable from_ical : string → result Component.

Variable repr : prop → string.

(** Lines 55-57: the list name. *)
Definition list_name (calendar : Component) (file : GFile) : value :=
  get calendar "X-WR-CALNAME"
    (Single (vText (rstrip ".ics" (get_basename file)))).

(** Lines 58-62: a name that some list already has gets a suffix. *)
Definition unique_name (name : value) : M value :=
  rows <- UserData.run_sql_select_name_from_lists ;;
  if existsb (eq_str name) rows
  then u <- uuid4 ;; ret (Single (vText (str repr name +:+ "_" +:+ u)))
  else ret name.

(** Lines 68-76: tags. The items are the list itself when the value is
    a list ([isinstance(tags, list)]) and [tags.cats] otherwise. *)
Definition import_tags (todo : Component) : result string :=
  let tags := get todo "CATEGORIES" (Single (vText "")) in
  if ne_empty tags then
    rbind (match tags with
           | Multiple ps => Ok ps
           | Single p => cats p
           end)
          (λ items, Ok (join "," (to_ical <$> items)))
  else Ok (str repr tags).

(** Lines 78-86: start. *)
Definition import_start (todo : Component) : result string :=
  if ne_empty (get todo "DTSTART" (Single (vText ""))) then
    rbind (value_to_ical (get todo "DTSTART" (Single (vText ""))))
          (λ s, Ok (strip "Z" s))
  else Ok "".

(** Lines 88-96: end. *)
Definition import_end (todo : Component) : result string :=
  let due_or_end :=
    get todo "DUE" (get todo "DTEND" (Single (vText ""))) in
  if ne_empty due_or_end then
    rbind (value_to_ical due_or_end) (λ s, Ok (strip "Z" s))
  else Ok "".

(** Line 99: [completed]. *)
Definition import_completed (todo : Component) : bool :=
  String.eqb (str repr (get todo "STATUS" (Single (vText "")))) "COMPLETED".

(** Line 103: [parent]. *)
Definition import_parent (todo : Component) : string :=
  str repr (get todo "RELATED-TO" (Single (vText ""))).

(** Line 104: [percent_complete]. *)
Definition import_percent_complete (todo : Component) : result Z :=
  int (get todo "PERCENT-COMPLETE" (Single (vInt 0))).

(** Line 105: [priority]. *)
Definition import_priority (todo : Component) : result Z :=
  int (get todo "PRIORITY" (Single (vInt 0))).

(** Lines 97-110: the arguments of the [add_task] call, evaluated in
    the order Python evaluates them, after tags, start and end. *)
Definition task_fields (uid : string) (todo : Component) : result TaskFields :=
  rbind (import_tags todo) (λ tags,
  rbind (import_start todo) (λ start,
  rbind (import_end todo) (λ end_,
  let color := get todo "X-ERRANDS-COLOR" (Single (vText "")) in
  let completed := import_completed todo in
  let notes := str repr (get todo "DESCRIPTION" (Single (vText ""))) in
  let parent := import_parent todo in
  rbind (import_percent_complete todo) (λ percent_complete,
  rbind (import_priority todo) (λ priority,
  let text := str repr (get todo "SUMMARY" (Single (vText ""))) in
  Ok (mkTaskFields color completed end_ uid notes parent percent_complete
                   priority start tags text (get_opt todo "UID"))))))).

(** Lines 67-110: one turn of the loop. *)
Definition add_todo (uid : string) (todo : Component) : M unit :=
  fields <- lift (task_fields uid todo) ;;
  UserData.add_task fields ;;
  ret tt.

Definition update_ui : M unit := emit UpdateUi.

Definition add_toast (msg : string) : M unit := emit (AddToast msg).

(** Lines 111-113: what follows the [with] block. *)
Definition finish : M outcome :=
  update_ui ;;
  add_toast "Imported" ;;
  Sync.sync ;;
  ret Imported.

(** Lines 46-113. [res] is what [dialog.open_finish(res)] gives: the
    chosen file, or an exception when the dialog was dismissed. *)
Definition _confirm (res : result GFile) : M outcome :=
  match res with
  | Raise _ =>
      Log.debug "Lists: Import cancelled" ;;
      ret Cancelled
  | Ok file =>
      contents <- read_text (get_path file) ;;
      calendar <- lift (from_ical contents) ;;
      name <- unique_name (list_name calendar file) ;;
      uid <- UserData.add_list name ;;
      for_each (walk "VTODO" calendar) (add_todo uid) ;;
      finish
  end.

End Confirm.
End TaskLists.

(** ** Vocabulary of the properties *)


(** The integer a numeric property stands for: 0 when the property is
    absent, the integer it holds, or the integer its text spells. *)
Definition numeric_field (o : option value) : option Z :=
  match o with
  | None => Some 0
  | Some (Single (vInt n)) => Some n
  | Some (Single (vText s)) =>
      match int_str s with
      | Ok n => Some n
      | Raise _ => None
      end
  | Some _ => None
  end.

(** How often [Sync.sync()] was called. *)
Definition syncs (t : list Event) : nat :=
  length (filter (λ e, e = SyncSync) t).

(** A statement that leaves one part of the world as it found it,
    whether it raises or not. *)
Definition preserves {X A} (part : World → X) (m : M A) : Prop :=
  ∀ w, part (m w).2 = part w.

(** [row] is what the loop stores for [todo] in the list [l]: the fields
    of the [add_task] call, under the identifier of the component when
    it has a non-empty one. *)
Definition created_from (repr : prop → string) (l : string)
    (todo : Component) (row : TaskRow) : Prop :=
  TaskLists.task_fields repr l todo = Ok (task_row_fields row)
  ∧ ∀ u, props todo !! "UID" = Some (Single (vText u)) → u ≠ "" →
         task_row_uid row = u.



(** ** Sample documents and worlds *)

Module Samples.

Definition repr_object (p : prop) : string := "<icalendar.prop object>".

Definition vtodo (fields : list (string * value)) : Component :=
  mkComponent "VTODO" (list_to_map fields) [].

Definition vcalendar (fields : list (string * value))
    (subs : list Component) : Component :=
  mkComponent "VCALENDAR" (list_to_map fields) subs.

(** A finished task with two categories, a UTC start and both DUE and
    DTEND. *)
Definition todo_report : Component :=
  vtodo [("UID", Single (vText "report-1"));
         ("SUMMARY", Single (vText "Write report"));
         ("STATUS", Single (vText "COMPLETED"));
         ("CATEGORIES", Single (vCategory ["work"; "urgent"]));
         ("DTSTART", Single (vDDDTypes "20240101T120000Z"));
         ("DUE", Single (vDDDTypes "20240102T090000Z"));
         ("DTEND", Single (vDDDTypes "20240103T000000Z"));
         ("PERCENT-COMPLETE", Single (vInt 100));
         ("PRIORITY", Single (vInt 5))].

(** A subtask of [todo_report] that has nothing but a summary, an
    identifier and its parent. *)
Definition todo_outline : Component :=
  vtodo [("UID", Single (vText "outline-1"));
         ("SUMMARY", Single (vText "Outline"));
         ("RELATED-TO", Single (vText "report-1"))].

(** PRIORITY holds text that is no number. *)
Definition todo_priority_text : Component :=
  vtodo [("UID", Single (vText "p-text"));
         ("PRIORITY", Single (vText "high"))].

(** PRIORITY holds a negative integer. *)
Definition todo_priority_negative : Component :=
  vtodo [("UID", Single (vText "p-neg"));
         ("PRIORITY", Single (vInt (-5)))].

(** The subtask comes before its parent; an event lies between. *)
Definition calendar_report : Component :=
  vcalendar [("X-WR-CALNAME", Single (vText "Groceries"))]
            [todo_outline; mkComponent "VEVENT" ∅ []; todo_report].

(** No declared name; the second task cannot be created. *)
Definition calendar_unnamed : Component :=
  vcalendar [] [todo_report; todo_priority_text; todo_outline].

(** A stand-in for the parser: it knows two documents and rejects
    everything else. *)
Definition parse (contents : string) : result Component :=
  if String.eqb contents "BEGIN:VCALENDAR report" then Ok calendar_report
  else if String.eqb contents "BEGIN:VCALENDAR unnamed" then Ok calendar_unnamed
  else Raise ValueError.

Definition file_report : GFile := mkGFile "/home/user/report.ics" "report.ics".
Definition file_basics : GFile := mkGFile "/home/user/basics.ics" "basics.ics".
Definition file_broken : GFile := mkGFile "/home/user/broken.ics" "broken.ics".

Definition disk : gmap string string :=
  {[ "/home/user/report.ics" := "BEGIN:VCALENDAR report";
     "/home/user/basics.ics" := "BEGIN:VCALENDAR unnamed";
     "/home/user/broken.ics" := "BEGIN:VCALEN" ]}.

Definition next_uuid (n : nat) : string := "uuid-" +:+ str_int (Z.of_nat n).

Definition no_fault (n : nat) : bool := false.

(** One list, in the trash, named Groceries. *)
Definition world_trashed : World :=
  mkWorld disk [mkListRow "list-0" "Groceries" true] [] next_uuid 0 no_fault 0 [].

(** Two lists: Groceries, and one that already carries the name the
    next identifier would produce. *)
Definition world_clash : World :=
  mkWorld disk [mkListRow "list-0" "Groceries" false;
                mkListRow "list-1" "Groceries_uuid-0" false]
          [] next_uuid 0 no_fault 0 [].

(** No lists; the store refuses its third mutation. *)
Definition world_faulty : World :=
  mkWorld disk [] [] next_uuid 0 (λ n, Nat.eqb n 2) 0 [].

Definition world_empty : World :=
  mkWorld disk [] [] next_uuid 0 no_fault 0 [].

End Samples.

(** ** Further vocabulary *)

(** Whether the first character of [s] is outside [chars]; an empty
    string has no first character to strip. *)
Definition first_kept (chars s : string) : bool :=
  match s with
  | EmptyString => true
  | String c _ => negb (char_in c chars)
  end.

(** Whether every character of [s] occurs in [chars]. *)
Fixpoint all_in (chars s : string) : bool :=
  match s with
  | EmptyString => true
  | String c s' => char_in c chars && all_in chars s'
  end.

(** A component the loop can store whatever the list: the arguments of
    the [add_task] call can be evaluated, and UID is absent or text. *)
Definition importable (repr : prop → string) (todo : Component) : Prop :=
  (∃ f, TaskLists.task_fields repr "" todo = Ok f)
  ∧ (props todo !! "UID" = None
     ∨ ∃ u, props todo !! "UID" = Some (Single (vText u))).

(** ** The sidebar of lists

    The methods of [TaskLists] outside the import (lines 214-335). Only
    the state these methods read is kept: the rows of [self.lists], the
    selected row, the pages of [self.stack], the status page and the
    setting [last-open-list]. Calls on other widgets are recorded in
    [calls], in order. *)

Module Sidebar.

(** A [TaskList] widget: the object ([widget], one number per widget
    made) and the uid it was made for. *)
Record TaskList : Type := mkTaskList {
  widget : nat;
  shown_uid : string;
}.

(** A row of the sidebar, [TaskListsItem(task_list, ...)]: [row.task_list]
    and the text of [row.label], the name of the list. [row.uid] is the
    uid of its task list. *)
Record TaskListsItem : Type := mkTaskListsItem {
  task_list : TaskList;
  label : string;
}.

Definition row_uid (row : TaskListsItem) : string := shown_uid (task_list row).

(** The same object. *)
Definition is_row (a b : TaskListsItem) : bool :=
  Nat.eqb (widget (task_list a)) (widget (task_list b)).

(** A child of the stack: a task list, or another widget (trash, status). *)
Inductive Child : Type :=
| IsTaskList (t : TaskList)
| OtherWidget (name : string).

(** A page of the stack: its name and its child. *)
Record Page : Type := mkPage {
  page_name : string;
  page_child : Child;
}.

(** Calls on widgets whose state is not kept. *)
Inductive Call : Type :=
| SetVisibleChildName (name : string)
| SetShowContent (b : bool)
| SetShowSidebar (b : bool)
| TaskListUpdateUi (t : TaskList).

Record Ui : Type := mkUi {
  rows : list TaskListsItem;
  selected : option TaskListsItem;
  pages : list Page;
  status_visible : bool;
  last_open_list : string;
  widgets : nat;
  calls : list Call;
}.

Definition set_rows (x : list TaskListsItem) (ui : Ui) : Ui :=
  mkUi x (selected ui) (pages ui) (status_visible ui) (last_open_list ui)
       (widgets ui) (calls ui).
Definition set_selected (x : option TaskListsItem) (ui : Ui) : Ui :=
  mkUi (rows ui) x (pages ui) (status_visible ui) (last_open_list ui)
       (widgets ui) (calls ui).
Definition set_pages (x : list Page) (ui : Ui) : Ui :=
  mkUi (rows ui) (selected ui) x (status_visible ui) (last_open_list ui)
       (widgets ui) (calls ui).
Definition set_status_visible (x : bool) (ui : Ui) : Ui :=
  mkUi (rows ui) (selected ui) (pages ui) x (last_open_list ui)
       (widgets ui) (calls ui).
Definition set_last_open_list (x : string) (ui : Ui) : Ui :=
  mkUi (rows ui) (selected ui) (pages ui) (status_visible ui) x
       (widgets ui) (calls ui).
Definition set_widgets (x : nat) (ui : Ui) : Ui :=
  mkUi (rows ui) (selected ui) (pages ui) (status_visible ui) (last_open_list ui)
       x (calls ui).
Definition call (c : Call) (ui : Ui) : Ui :=
  mkUi (rows ui) (selected ui) (pages ui) (status_visible ui) (last_open_list ui)
       (widgets ui) (calls ui ++ [c]).

(** [for x in items: ...] with the widgets passed along. *)
Fixpoint for_fold {A S} (items : list A) (body : A → S → M S) (s : S) : M S :=
  match items with
  | [] => ret s
  | x :: rest => s' <- body x s ;; for_fold rest body s'
  end.

(** Lines 274-281: the handler of [row-selected]. *)
Definition on_list_swiched (row : option TaskListsItem) (ui : Ui) : M Ui :=
  Log.debug "Lists: Switch list" ;;
  match row with
  | Some r =>
      let name := label r in
      ret (set_status_visible false
             (set_last_open_list name
                (call (SetShowContent true)
                   (call (SetVisibleChildName name) ui))))
  | None => ret ui
  end.

Definition is_selected (row : TaskListsItem) (ui : Ui) : bool :=
  match selected ui with
  | Some r => is_row r row
  | None => false
  end.

(** [self.lists.select_row(row)]: nothing for the selected row;
    otherwise the row is selected and [row-selected] is emitted, which
    line 175 connects to [on_list_swiched]. *)
Definition select_row (row : TaskListsItem) (ui : Ui) : M Ui :=
  if is_selected row ui then ret ui
  else on_list_swiched (Some row) (set_selected (Some row) ui).

(** [self.lists.unselect_all()]: emits [row-selected] without a row when
    a row was selected. *)
Definition unselect_all (ui : Ui) : M Ui :=
  match selected ui with
  | Some _ => on_list_swiched None (set_selected None ui)
  | None => ret ui
  end.

(** [self.lists.remove(row)]: the row leaves the box; when it was the
    selected row, nothing is selected and [row-selected] is emitted
    without a row. *)
Definition remove (row : TaskListsItem) (ui : Ui) : M Ui :=
  let ui' := set_rows (filter (λ r, is_row r row = false) (rows ui)) ui in
  if is_selected row ui then on_list_swiched None (set_selected None ui')
  else ret ui'.

(** Whether the child of the page is the task list [t]. *)
Definition is_page_of (t : TaskList) (p : Page) : bool :=
  match page_child p with
  | IsTaskList t' => Nat.eqb (widget t') (widget t)
  | OtherWidget _ => false
  end.

(** [self.stack.remove(list)]. *)
Definition stack_remove (t : TaskList) (ui : Ui) : Ui :=
  set_pages (filter (λ p, is_page_of t p = false) (pages ui)) ui.

(** Lines 214-227: [add_list(name, uid)], which returns the new row. The
    bindings of the page's title and name to the task list's title
    (lines 219-224) act when a list is renamed, which no method here
    does. *)
Definition add_list (name uid : string) (ui : Ui) : TaskListsItem * Ui :=
  let task_list := mkTaskList (widgets ui) uid in
  let ui := set_widgets (S (widgets ui)) ui in
  let ui := set_pages (pages ui ++ [mkPage name (IsTaskList task_list)]) ui in
  let row := mkTaskListsItem task_list name in
  (row, set_rows (rows ui ++ [row]) ui).

(** Lines 268-272. *)
Definition on_trash_btn_clicked (ui : Ui) : M Ui :=
  ui <- unselect_all ui ;;
  ret (call (SetShowSidebar false)
         (call (SetShowContent true)
            (call (SetVisibleChildName "trash") ui))).

(** Lines 283-290: the task lists among the children of the stack's
    pages, in order. *)
Definition get_lists (ui : Ui) : list TaskList :=
  omap (λ p, match page_child p with
             | IsTaskList t => Some t
             | OtherWidget _ => None
             end) (pages ui).

(** Lines 292-299. *)
Definition _load_lists (ui : Ui) : M Ui :=
  dicts <- UserData.get_lists_as_dicts ;;
  let lists := filter (λ i, list_row_deleted i = false) dicts in
  ui <- for_fold lists
          (λ list ui,
             let '(row, ui) := add_list (list_row_name list) (list_row_uid list) ui in
             if String.eqb (last_open_list ui) (list_row_name list)
             then select_row row ui
             else ret ui) ui ;;
  ret (set_status_visible (Nat.eqb (length lists) 0) ui).

(** [row.get_prev_sibling()] and [row.get_next_sibling()] among the
    rows. *)
Fixpoint prev_sibling (row : TaskListsItem) (prev : option TaskListsItem)
    (rs : list TaskListsItem) : option TaskListsItem :=
  match rs with
  | [] => None
  | r :: rest => if is_row r row then prev else prev_sibling row (Some r) rest
  end.

Fixpoint next_sibling (row : TaskListsItem) (rs : list TaskListsItem)
    : option TaskListsItem :=
  match rs with
  | [] => None
  | r :: rest => if is_row r row then head rest else next_sibling row rest
  end.

(** Lines 306-314: one turn of the loop that deletes rows. *)
Definition delete_row (uids : list string) (row : TaskListsItem) (ui : Ui) : M Ui :=
  if bool_decide (row_uid row ∈ uids) then ret ui
  else
    let prev_child := prev_sibling row None (rows ui) in
    let next_child := next_sibling row (rows ui) in
    let list := task_list row in
    let ui := stack_remove list ui in
    ui <- match prev_child, next_child with
          | Some r, _ => select_row r ui
          | None, Some r => select_row r ui
          | None, None => ret ui
          end ;;
    remove row ui.

(** Lines 323-329: one turn of the loop that creates rows. *)
Definition create_row (old_uids : list string) (list : ListRow) (ui : Ui) : M Ui :=
  if bool_decide (list_row_uid list ∈ old_uids) then ret ui
  else
    Log.debug ("Lists: Add list '" +:+ list_row_uid list +:+ "'") ;;
    let '(row, ui) := add_list (list_row_name list) (list_row_uid list) ui in
    ui <- select_row row ui ;;
    ret (set_status_visible false
           (call (SetVisibleChildName (list_row_name list)) ui)).

(** Lines 301-335. [TaskList.update_ui] is not under src/ and acts on
    the task list's own widgets; the call is recorded. *)
Definition update_ui (ui : Ui) : M Ui :=
  Log.debug "Lists: Update UI..." ;;
  dicts <- UserData.get_lists_as_dicts ;;
  let uids := list_row_uid <$> dicts in
  ui <- for_fold (rows ui) (delete_row uids) ui ;;
  let ui := foldl (λ ui list, call (TaskListUpdateUi list) ui) ui (get_lists ui) in
  let old_uids := row_uid <$> rows ui in
  new_lists <- UserData.get_lists_as_dicts ;;
  ui <- for_fold new_lists (create_row old_uids) ui ;;
  let lists := rows ui in
  let ui := set_status_visible (Nat.eqb (length lists) 0) ui in
  ret (if Nat.eqb (length lists) 0
       then call (SetVisibleChildName "status") ui
       else ui).

End Sidebar.

(** ** The dialog that adds a list (lines 229-266) *)

Module on_add_btn_clicked.

(** The characters line 236 strips: space, line feed, tab. *)
Definition blanks : string :=
  String " " (String (ascii_of_nat 10) (String (ascii_of_nat 9) "")).

(** Lines 235-238: whether the response "add" is enabled for the text
    of the entry. *)
Definition _entry_changed (entry_text : string) : M bool :=
  let text := strip blanks entry_text in
  dicts <- UserData.get_lists_as_dicts ;;
  let names := list_row_name <$> dicts in
  ret (negb (String.eqb text "") && negb (existsb (String.eqb text) names)).

(** Lines 240-248: the handler of the dialog's response. *)
Definition _confirm (res entry_text : string) (ui : Sidebar.Ui) : M Sidebar.Ui :=
  if String.eqb res "cancel" then ret ui
  else
    let name := lstrip whitespace (rstrip whitespace entry_text) in
    uid <- UserData.add_list (Single (vText name)) ;;
    let '(row, ui) := Sidebar.add_list name uid ui in
    ui <- Sidebar.select_row row ui ;;
    Sync.sync ;;
    ret ui.

End on_add_btn_clicked.

(** ** Statements that only read the store *)

(** The store and the number of sync calls are the same in both worlds. *)
Definition same_store (w w' : World) : Prop :=
  lists w' = lists w ∧ tasks w' = tasks w ∧ syncs (trace w') = syncs (trace w).

(** [m] ends without an exception, leaves the store and the sync count
    as they are, and its value satisfies [post]. *)
Definition reads {A} (m : M A) (w : World) (post : A → Prop) : Prop :=
  ∃ a w', m w = (Ok a, w') ∧ same_store w w' ∧ post a.

(** ** The rows and the pages of the sidebar *)

(** The widgets of the rows. *)
Definition row_widgets (rs : list Sidebar.TaskListsItem) : list nat :=
  (λ r, Sidebar.widget (Sidebar.task_list r)) <$> rs.

(** The rows are different widgets, made before the widgets to come,
    and the task lists of the stack are the task lists of the rows, in
    the same order. *)
Definition consistent (ui : Sidebar.Ui) : Prop :=
  NoDup (row_widgets (Sidebar.rows ui))
  ∧ (∀ r, r ∈ Sidebar.rows ui →
          (Sidebar.widget (Sidebar.task_list r) < Sidebar.widgets ui)%nat)
  ∧ Sidebar.get_lists ui = Sidebar.task_list <$> Sidebar.rows ui.

(** The rows [rs] show the lists [ls], one row for each list in the same
    order, with the uid and the name of the list. *)
Definition rows_of (rs : list Sidebar.TaskListsItem) (ls : list ListRow) : Prop :=
  (λ r, (Sidebar.row_uid r, Sidebar.label r)) <$> rs
    = (λ l, (list_row_uid l, list_row_name l)) <$> ls.

(** ** The page of to-dos (src/widgets/todolist.py) *)

Module TodoList.
Section LoadTodos.

(** What an entry holds under a key; only ["sub"] is read. *)
Variable Value : Type.

(** A Python dict with text keys, in insertion order. *)
Definition Dict (A : Type) : Type := list (string * A).

(** [d[key]]. *)
Fixpoint dict_get {A} (key : string) (d : Dict A) : option A :=
  match d with
  | [] => None
  | (k, a) :: rest => if String.eqb k key then Some a else dict_get key rest
  end.

(** The widget [Todo(text, sub)]. *)
Inductive Todo : Type := mkTodo (text : string) (sub : Value).

Inductive error : Type := KeyError (key : string).

(** Lines 16-17: [for todo in data["todos"]: self.add(Todo(...))]. The
    page is the list of the widgets added. *)
Fixpoint add_todos (keys : list string) (todos : Dict (Dict Value))
    (page : list Todo) : option error * list Todo :=
  match keys with
  | [] => (None, page)
  | todo :: rest =>
      match dict_get todo todos with
      | None => (Some (KeyError todo), page)
      | Some entry =>
          match dict_get "sub" entry with
          | None => (Some (KeyError "sub"), page)
          | Some sub => add_todos rest todos (page ++ [mkTodo todo sub])
          end
      end
  end.

(** Lines 13-17. [data] is what [ReadData()] returns. *)
Definition load_todos (data : Dict (Dict (Dict Value))) (page : list Todo)
    : option error * list Todo :=
  match dict_get "todos" data with
  | None => (Some (KeyError "todos"), page)
  | Some todos =>
      match todos with
      | [] => (None, page)
      | _ => add_todos todos.*1 todos page
      end
  end.

(** The widgets made for entries that all have ["sub"]. *)
Definition widgets_of (todos : Dict (Dict Value)) (ws : list Todo) : Prop :=
  Forall2 (λ e t, ∃ sub, dict_get "sub" e.2 = Some sub ∧ t = mkTodo e.1 sub)
          todos ws.

End LoadTodos.
End TodoList.

(** ** More sample data *)

Module MoreSamples.

Import Sidebar.

(** CATEGORIES occurs twice. *)
Definition todo_two_categories : Component :=
  Samples.vtodo [("UID", Single (vText "tc-1"));
                 ("CATEGORIES",
                  Multiple [vCategory ["work"; "urgent"]; vCategory ["home"]])].

(** A document without any task. *)
Definition calendar_empty : Component :=
  Samples.vcalendar [("X-WR-CALNAME", Single (vText "Empty"))]
                    [mkComponent "VEVENT" ∅ []].

Definition parse_empty (contents : string) : result Component := Ok calendar_empty.

(** Two lists; the second is flagged deleted. *)
Definition world_two_lists : World :=
  mkWorld Samples.disk
          [mkListRow "list-0" "Groceries" false; mkListRow "list-1" "Old" true]
          [] Samples.next_uuid 0 Samples.no_fault 0 [].

Definition stack_pages : list Page :=
  [mkPage "trash" (OtherWidget "trash"); mkPage "status" (OtherWidget "status")].

(** The sidebar before [_load_lists]: no row; the setting names the list
    opened last. *)
Definition ui_start : Ui :=
  mkUi [] None stack_pages true "Groceries" 0 [].

Definition task_list_gone : TaskList := mkTaskList 0 "gone".
Definition task_list_groceries : TaskList := mkTaskList 1 "list-0".

(** A sidebar with a row for a list that is no longer stored and a row
    for the list "list-0". *)
Definition ui_stale : Ui :=
  mkUi [mkTaskListsItem task_list_gone "Gone";
        mkTaskListsItem task_list_groceries "Groceries"]
       (Some (mkTaskListsItem task_list_gone "Gone"))
       (stack_pages ++ [mkPage "Gone" (IsTaskList task_list_gone);
                        mkPage "Groceries" (IsTaskList task_list_groceries)])
       false "Gone" 2 [].


(** What [ReadData()] may return: two to-dos, the number of their
    sub-tasks under ["sub"]. *)
Definition data_two_todos : TodoList.Dict (TodoList.Dict (TodoList.Dict nat)) :=
  [("version", []);
   ("todos", [("Buy milk", [("sub", 2%nat)]);
              ("Call Bob", [("color", 1%nat); ("sub", 0%nat)])])].

(** The second to-do has no ["sub"]. *)
Definition data_missing_sub : TodoList.Dict (TodoList.Dict (TodoList.Dict nat)) :=
  [("todos", [("Buy milk", [("sub", 2%nat)]);
              ("Call Bob", [("color", 1%nat)]);
              ("Write", [("sub", 1%nat)])])].

End MoreSamples.

(** ** Properties *)

(** *** Strings *)

Lemma lstrip_keep (chars s : string) (c : ascii) :
  char_in c chars = false → lstrip chars (String c s) = String c s.
Proof. intros Hc. simpl. now rewrite Hc. Qed.

Lemma rstrip_head (chars s : string) (c : ascii) :
  char_in c chars = false →
  ∃ r, rstrip chars (String c s) = String c r.
Proof.
  intros Hc. simpl. destruct (rstrip chars s) as [|d r].
  - rewrite Hc. now exists "".
  - now exists (String d r).
Qed.

(** On a string that does not begin with a stripped character, [strip]
    only works on the right end. *)
Lemma strip_is_rstrip (chars s : string) (c : ascii) :
  char_in c chars = false →
  strip chars (String c s) = rstrip chars (String c s).
Proof.
  intros Hc. unfold strip.
  destruct (rstrip_head chars s c Hc) as [r ->].
  now apply lstrip_keep.
Qed.

Lemma rstrip_app_stripped (chars s : string) (c : ascii) :
  char_in c chars = true →
  rstrip chars (s +:+ String c "") = rstrip chars s.
Proof.
  intros Hc. induction s as [|d s IH]; simpl.
  - now rewrite Hc.
  - now rewrite IH.
Qed.

Lemma rstrip_last_kept (chars s : string) :
  last_kept chars s = true → rstrip chars s = s.
Proof.
  induction s as [|c s IH]; [done|].
  intros H. destruct s as [|d s].
  - simpl in *. now destruct (char_in c chars).
  - change (last_kept chars (String d s) = true) in H.
    specialize (IH H). change (rstrip chars (String c (String d s)))
      with (match rstrip chars (String d s) with
            | EmptyString => if char_in c chars then EmptyString else String c EmptyString
            | r => String c r
            end).
    now rewrite IH.
Qed.

(** [str(n)] begins with a digit or a minus sign. *)
Lemma str_int_head (n : Z) :
  ∃ c r, str_int n = String c r ∧ (is_digit c = true ∨ c = "-"%char).
Proof.
  unfold str_int. destruct n as [|p|p]; simpl.
  - exists "0"%char, "". auto.
  - unfold NilZero.string_of_uint.
    destruct (Pos.to_uint p); simpl; eauto 10.
  - unfold NilZero.string_of_uint.
    destruct (Pos.to_uint p); simpl; eauto 10.
Qed.

Lemma existsb_eq_str (n : string) (rows : list string) :
  existsb (eq_str (Single (vText n))) rows = true ↔ n ∈ rows.
Proof.
  induction rows as [|r rows IH]; simpl.
  - split; [discriminate|]. intros H. inversion H.
  - rewrite orb_true_iff, IH, String.eqb_eq, elem_of_cons. tauto.
Qed.

Lemma append_length (a b : string) :
  String.length (a +:+ b) = (String.length a + String.length b)%nat.
Proof. induction a as [|c a IH]; simpl; [done|]. now rewrite IH. Qed.

(** A name followed by more characters is another name. *)
Lemma suffixed_ne (n u : string) : n +:+ "_" +:+ u ≠ n.
Proof.
  intros H. apply (f_equal String.length) in H.
  rewrite !append_length in H. simpl in H. lia.
Qed.

(** *** The fields of one task *)

Import TaskLists.

Section Fields.

Variable repr : prop → string.

Lemma get_absent (c : Component) (key : string) (dflt : value) :
  props c !! key = None → get c key dflt = dflt.
Proof. unfold get. now intros ->. Qed.

Lemma get_present (c : Component) (key : string) (dflt v : value) :
  props c !! key = Some v → get c key dflt = v.
Proof. unfold get. now intros ->. Qed.

(** A declared calendar name is the list name as it stands. *)
Lemma list_name_declared (calendar : Component) (file : GFile) (v : value) :
  props calendar !! "X-WR-CALNAME" = Some v → list_name calendar file = v.
Proof. apply get_present. Qed.

(** Without one, the list name is the base name after [rstrip]. *)
Lemma list_name_fallback (calendar : Component) (file : GFile) :
  props calendar !! "X-WR-CALNAME" = None →
  list_name calendar file = Single (vText (rstrip ".ics" (get_basename file))).
Proof. apply get_absent. Qed.

(** The fields of a created task are the named expressions. *)
Lemma task_fields_ok (l : string) (todo : Component) (f : TaskFields) :
  task_fields repr l todo = Ok f →
  import_tags repr todo = Ok (tags f)
  ∧ import_start todo = Ok (start_date f)
  ∧ import_end todo = Ok (end_date f)
  ∧ import_percent_complete todo = Ok (percent_complete f)
  ∧ import_priority todo = Ok (priority f)
  ∧ completed f = import_completed repr todo
  ∧ parent f = import_parent repr todo
  ∧ uid f = get_opt todo "UID"
  ∧ list_uid f = l.
Proof.
  unfold task_fields.
  destruct (import_tags repr todo); [|discriminate].
  destruct (import_start todo); [|discriminate].
  destruct (import_end todo); [|discriminate].
  destruct (import_percent_complete todo); [|discriminate].
  destruct (import_priority todo); [|discriminate].
  simpl. intros [= <-]. simpl. repeat split.
Qed.

(** The task is created when the five expressions that can raise do
    not. *)
Lemma task_fields_total (l : string) (todo : Component)
    (tg st en : string) (pc pr : Z) :
  import_tags repr todo = Ok tg →
  import_start todo = Ok st →
  import_end todo = Ok en →
  import_percent_complete todo = Ok pc →
  import_priority todo = Ok pr →
  ∃ f, task_fields repr l todo = Ok f
       ∧ tags f = tg ∧ start_date f = st ∧ end_date f = en
       ∧ percent_complete f = pc ∧ priority f = pr.
Proof.
  intros Ht Hs He Hpc Hpr. unfold task_fields.
  rewrite Ht, Hs, He, Hpc, Hpr. simpl. eexists. split; [reflexivity|].
  simpl. repeat split.
Qed.

End Fields.





Lemma int_numeric_field (todo : Component) (key : string) :
  int (get todo key (Single (vInt 0))) =
    match numeric_field (props todo !! key) with
    | Some n => Ok n
    | None =>
        match props todo !! key with
        | Some (Single (vText _)) => Raise ValueError
        | _ => Raise TypeError
        end
    end.
Proof.
  unfold get. destruct (props todo !! key) as [[[s|n|r|cs]|ps]|]; simpl; try done.
  unfold int_str. now destruct (match strip whitespace s with
                                | EmptyString => _ | String _ _ => _ end).
Qed.

Section FieldClaims.

Variable repr : prop → string.

(** C4 (the code at the input that shows the defect): with no declared
    calendar name, the file "basics.ics" gives the list name "ba", not
    "basics": [rstrip(".ics")] removes every trailing character that is
    one of ".", "i", "c", "s", not the extension. *)
Theorem list_name_basics :
  props Samples.calendar_unnamed !! "X-WR-CALNAME" = None
  ∧ get_basename Samples.file_basics = "basics.ics"
  ∧ list_name Samples.calendar_unnamed Samples.file_basics = Single (vText "ba")
  ∧ list_name Samples.calendar_unnamed Samples.file_basics
      ≠ Single (vText "basics").
Proof. repeat split; discriminate. Qed.

(** C6: the task is completed exactly when STATUS is the text
    COMPLETED, compared character by character; it is not completed
    when STATUS is absent, is other text, is a number or occurs more
    than once. The created task carries that flag. *)
Theorem completed_iff_status_completed (todo : Component) :
  (props todo !! "STATUS" = None → import_completed repr todo = false)
  ∧ (∀ s, props todo !! "STATUS" = Some (Single (vText s)) →
          (import_completed repr todo = true ↔ s = "COMPLETED"))
  ∧ (∀ n, props todo !! "STATUS" = Some (Single (vInt n)) →
          import_completed repr todo = false)
  ∧ (∀ ps, props todo !! "STATUS" = Some (Multiple ps) →
           import_completed repr todo = false)
  ∧ (∀ l f, task_fields repr l todo = Ok f →
            completed f = import_completed repr todo).
Proof.
  unfold import_completed, get. split; [|split; [|split; [|split]]].
  - now intros ->.
  - intros s ->. simpl. apply String.eqb_eq.
  - intros n ->. simpl.
    destruct (str_int_head n) as (c & r & -> & [Hc| ->]); [|done].
    apply String.eqb_neq. intros [= -> _]. discriminate.
  - now intros ps ->.
  - intros l f Hf. now apply task_fields_ok in Hf.
Qed.

(** C7: the start date is the DTSTART value in its iCalendar (ISO 8601
    basic) form after [strip("Z")], the end date likewise from DUE, or
    from DTEND when there is no DUE; an absent field gives the empty
    string. On a rendering that does not begin with Z and whose last
    character before a final Z is not Z, [strip("Z")] removes that
    final Z and nothing else. *)
Theorem dates_strip_trailing_Z (todo : Component) :
  (props todo !! "DTSTART" = None → import_start todo = Ok "")
  ∧ (∀ r, props todo !! "DTSTART" = Some (Single (vDDDTypes r)) →
          import_start todo = Ok (strip "Z" r))
  ∧ (props todo !! "DUE" = None → props todo !! "DTEND" = None →
     import_end todo = Ok "")
  ∧ (∀ r, props todo !! "DUE" = Some (Single (vDDDTypes r)) →
          import_end todo = Ok (strip "Z" r))
  ∧ (∀ r, props todo !! "DUE" = None →
          props todo !! "DTEND" = Some (Single (vDDDTypes r)) →
          import_end todo = Ok (strip "Z" r))
  ∧ (∀ c body, c ≠ "Z"%char → last_kept "Z" (String c body) = true →
       strip "Z" (String c body +:+ "Z") = String c body
       ∧ strip "Z" (String c body) = String c body).
Proof.
  unfold import_start, import_end, get. repeat split.
  - now intros ->.
  - now intros r ->.
  - now intros -> ->.
  - now intros r ->.
  - now intros r -> ->.
  - assert (char_in c "Z" = false) as Hc.
    { simpl. rewrite orb_false_r. now apply Ascii.eqb_neq. }
    change (String c body +:+ "Z") with (String c (body +:+ "Z")).
    rewrite (strip_is_rstrip _ _ _ Hc).
    change (String c (body +:+ "Z")) with (String c body +:+ "Z").
    rewrite rstrip_app_stripped by reflexivity.
    now apply rstrip_last_kept.
  - assert (char_in c "Z" = false) as Hc.
    { simpl. rewrite orb_false_r. now apply Ascii.eqb_neq. }
    rewrite (strip_is_rstrip _ _ _ Hc). now apply rstrip_last_kept.
Qed.


(** C1 (amended): priority and percent_complete are the integer the
    field holds or spells, negative ones included, and 0 when the
    field is absent; the task is then created with these values
    whenever its tags and dates can be computed. When either field is
    present and stands for no integer, no default is used: evaluating
    the task's fields raises. *)
Theorem numeric_fields_int_or_raise (l : string) (todo : Component) :
  (props todo !! "PRIORITY" = None → import_priority todo = Ok 0)
  ∧ (∀ n, props todo !! "PRIORITY" = Some (Single (vInt n)) →
          import_priority todo = Ok n)
  ∧ (props todo !! "PERCENT-COMPLETE" = None →
     import_percent_complete todo = Ok 0)
  ∧ (∀ n, props todo !! "PERCENT-COMPLETE" = Some (Single (vInt n)) →
          import_percent_complete todo = Ok n)
  ∧ (∀ p q tg st en,
       numeric_field (props todo !! "PRIORITY") = Some p →
       numeric_field (props todo !! "PERCENT-COMPLETE") = Some q →
       import_tags repr todo = Ok tg →
       import_start todo = Ok st →
       import_end todo = Ok en →
       ∃ f, task_fields repr l todo = Ok f
            ∧ priority f = p ∧ percent_complete f = q)
  ∧ (numeric_field (props todo !! "PRIORITY") = None
     ∨ numeric_field (props todo !! "PERCENT-COMPLETE") = None →
     ∃ e, task_fields repr l todo = Raise e).
Proof.
  unfold import_priority, import_percent_complete. repeat split.
  - intros H. now rewrite int_numeric_field, H.
  - intros n H. now rewrite int_numeric_field, H.
  - intros H. now rewrite int_numeric_field, H.
  - intros n H. now rewrite int_numeric_field, H.
  - intros p q tg st en Hp Hq Ht Hs He.
    destruct (task_fields_total repr l todo tg st en q p) as (f & Hf & ?);
      try done.
    + unfold import_percent_complete. now rewrite int_numeric_field, Hq.
    + unfold import_priority. now rewrite int_numeric_field, Hp.
    + exists f. tauto.
  - intros Hnone. unfold task_fields.
    destruct (import_tags repr todo); [|eauto].
    destruct (import_start todo); [|eauto].
    destruct (import_end todo); [|eauto]. simpl.
    unfold import_percent_complete, import_priority.
    rewrite !int_numeric_field.
    destruct (numeric_field (props todo !! "PERCENT-COMPLETE")) as [q|].
    + destruct (numeric_field (props todo !! "PRIORITY")) as [p|].
      * now destruct Hnone.
      * simpl. destruct (props todo !! "PRIORITY") as [[[]|]|]; eauto.
    + simpl. destruct (props todo !! "PERCENT-COMPLETE") as [[[]|]|]; eauto.
Qed.

End FieldClaims.

(** *** Statements and the parts of the world they touch *)

Lemma syncs_app (t1 t2 : list Event) : syncs (t1 ++ t2) = (syncs t1 + syncs t2)%nat.
Proof. unfold syncs. now rewrite filter_app, length_app. Qed.

Section Preserves.

Context {X : Type} (part : World → X).

Lemma preserves_ret {A} (a : A) : preserves part (ret a).
Proof. done. Qed.

Lemma preserves_raise {A} (e : exn) : preserves part (@raise A e).
Proof. done. Qed.

Lemma preserves_lift {A} (r : result A) : preserves part (lift r).
Proof. done. Qed.

Lemma preserves_bind {A B} (m : M A) (k : A → M B) :
  preserves part m → (∀ a, preserves part (k a)) → preserves part (bind m k).
Proof.
  intros Hm Hk w. unfold bind. specialize (Hm w).
  destruct (m w) as [[a|e] w']; simpl in *; [|done].
  now rewrite Hk.
Qed.

Lemma preserves_for_each {A} (items : list A) (body : A → M unit) :
  (∀ x, preserves part (body x)) → preserves part (for_each items body).
Proof.
  intros Hbody. induction items as [|x items IH]; simpl.
  - apply preserves_ret.
  - apply preserves_bind; auto.
Qed.

Lemma preserves_read_text (path : string) : preserves part (read_text path).
Proof. intros w. unfold read_text. now destruct (files w !! path). Qed.

End Preserves.

Create HintDb frame.
#[global] Hint Resolve preserves_ret preserves_raise preserves_lift
  preserves_read_text : frame.

Ltac frame :=
  repeat first
    [ apply preserves_bind; [|intros ?]
    | apply preserves_for_each; intros ?
    | solve [auto with frame]
    | match goal with
      | |- preserves _ (match ?x with _ => _ end) => destruct x
      | |- preserves _ (if ?b then _ else _) => destruct b
      end ].

Lemma uuid4_trace : preserves trace uuid4.
Proof. done. Qed.
Lemma uuid4_lists : preserves lists uuid4.
Proof. done. Qed.
Lemma uuid4_tasks : preserves tasks uuid4.
Proof. done. Qed.

Lemma mutation_trace : preserves trace UserData.mutation.
Proof. intros w. unfold UserData.mutation. now destruct (faults w (writes w)). Qed.
Lemma mutation_lists : preserves lists UserData.mutation.
Proof. intros w. unfold UserData.mutation. now destruct (faults w (writes w)). Qed.
Lemma mutation_tasks : preserves tasks UserData.mutation.
Proof. intros w. unfold UserData.mutation. now destruct (faults w (writes w)). Qed.

Lemma select_names_trace : preserves trace UserData.run_sql_select_name_from_lists.
Proof. done. Qed.
Lemma select_names_lists : preserves lists UserData.run_sql_select_name_from_lists.
Proof. done. Qed.
Lemma select_names_tasks : preserves tasks UserData.run_sql_select_name_from_lists.
Proof. done. Qed.

#[global] Hint Resolve uuid4_trace uuid4_lists uuid4_tasks mutation_trace
  mutation_lists mutation_tasks select_names_trace select_names_lists
  select_names_tasks : frame.

Lemma add_list_trace (name : value) : preserves trace (UserData.add_list name).
Proof. unfold UserData.add_list. frame. Qed.

Lemma add_list_tasks (name : value) : preserves tasks (UserData.add_list name).
Proof. unfold UserData.add_list. frame. Qed.

Lemma add_task_trace (fields : TaskFields) : preserves trace (UserData.add_task fields).
Proof. unfold UserData.add_task. frame. Qed.

Lemma add_task_lists (fields : TaskFields) : preserves lists (UserData.add_task fields).
Proof. unfold UserData.add_task. frame. Qed.

#[global] Hint Resolve add_list_trace add_list_tasks add_task_trace
  add_task_lists : frame.

Section Steps.

Variable from_ical : string → result Component.
Variable repr : prop → string.

Lemma unique_name_trace (name : value) : preserves trace (unique_name repr name).
Proof. unfold unique_name. frame. Qed.

Lemma unique_name_lists (name : value) : preserves lists (unique_name repr name).
Proof. unfold unique_name. frame. Qed.

Lemma unique_name_tasks (name : value) : preserves tasks (unique_name repr name).
Proof. unfold unique_name. frame. Qed.

Lemma add_todo_trace (l : string) (todo : Component) :
  preserves trace (add_todo repr l todo).
Proof. unfold add_todo. frame. Qed.

Lemma add_todo_lists (l : string) (todo : Component) :
  preserves lists (add_todo repr l todo).
Proof. unfold add_todo. frame. Qed.

End Steps.

#[global] Hint Resolve unique_name_trace unique_name_lists unique_name_tasks
  add_todo_trace add_todo_lists : frame.

(** *** The loop over the tasks *)

Lemma for_each_app {A} (xs ys : list A) (body : A → M unit) (w : World) :
  for_each (xs ++ ys) body w =
    match for_each xs body w with
    | (Ok _, w') => for_each ys body w'
    | (Raise e, w') => (Raise e, w')
    end.
Proof.
  revert w. induction xs as [|x xs IH]; intros w; simpl; [done|].
  unfold bind. destruct (body x w) as [[[]|e] w']; [|done].
  apply IH.
Qed.

Section Loop.

Variable repr : prop → string.

(** [add_task] either stores one row, under the given identifier when
    there is a non-empty one, or leaves the tasks as they are. *)
Lemma add_task_rows (fields : TaskFields) (w : World) :
  match UserData.add_task fields w with
  | (Ok u, w') =>
      tasks w' = tasks w ++ [mkTaskRow u fields]
      ∧ ∀ v, uid fields = Some (Single (vText v)) → v ≠ "" → u = v
  | (Raise _, w') => tasks w' = tasks w
  end.
Proof.
  unfold UserData.add_task, bind, UserData.mutation.
  destruct (faults w (writes w)); [done|].
  destruct (uid fields) as [[[v| | |]|]|]; simpl; try done.
  destruct (String.eqb_spec v ""); simpl.
  - split; [done|]. intros ? [= <-]. done.
  - split; [done|]. now intros ? [= <-].
Qed.

Lemma add_todo_rows (l : string) (todo : Component) (w : World) :
  match add_todo repr l todo w with
  | (Ok _, w') =>
      ∃ row, tasks w' = tasks w ++ [row] ∧ created_from repr l todo row
  | (Raise _, w') => tasks w' = tasks w
  end.
Proof.
  unfold add_todo, bind, lift.
  destruct (task_fields repr l todo) as [f|e] eqn:Hf; [|done].
  pose proof (add_task_rows f w) as Hrow.
  destruct (UserData.add_task f w) as [[u|e] w']; [|done].
  destruct Hrow as [Htasks Huid]. simpl.
  exists (mkTaskRow u f). split; [done|]. split; [done|].
  intros v Hv Hne. apply Huid; [|done].
  apply task_fields_ok in Hf. destruct Hf as (_&_&_&_&_&_&_&->&_).
  exact Hv.
Qed.

(** The loop stores one row per component, in order, until it is done
    or a component cannot be stored; the rows stored before that stay. *)
Lemma for_each_rows (l : string) (todos : list Component) (w : World) :
  ∃ rows,
    tasks (for_each todos (add_todo repr l) w).2 = tasks w ++ rows
    ∧ (∀ i row, rows !! i = Some row →
         ∃ todo, todos !! i = Some todo ∧ created_from repr l todo row)
    ∧ match (for_each todos (add_todo repr l) w).1 with
      | Ok _ => length rows = length todos
      | Raise _ => (length rows < length todos)%nat
      end.
Proof.
  revert w. induction todos as [|todo todos IH]; intros w; simpl.
  - exists []. rewrite app_nil_r. repeat split. intros i row [=].
  - unfold bind. pose proof (add_todo_rows l todo w) as Hrow.
    destruct (add_todo repr l todo w) as [[[]|e] w'].
    + destruct Hrow as (row & Htasks & Hrow).
      destruct (IH w') as (rows & Hrows & Hall & Hlen).
      exists (row :: rows). rewrite Hrows, Htasks, <- app_assoc.
      split; [done|]. split.
      * intros [|i] r Hr; simpl in *.
        -- injection Hr as <-. eauto.
        -- eauto.
      * destruct (for_each todos (add_todo repr l) w').1; simpl; lia.
    + exists []. simpl. rewrite app_nil_r. split; [done|]. split; [|lia].
      intros i row [=].
Qed.

End Loop.

(** *** The whole import *)

Lemma emit_lists (e : Event) : preserves lists (emit e).
Proof. done. Qed.
Lemma emit_tasks (e : Event) : preserves tasks (emit e).
Proof. done. Qed.

#[global] Hint Resolve emit_lists emit_tasks : frame.

Lemma add_list_lists (name : value) (w : World) :
  match UserData.add_list name w with
  | (Ok l, w') =>
      ∃ n, name = Single (vText n) ∧ lists w' = lists w ++ [mkListRow l n false]
  | (Raise _, w') => lists w' = lists w
  end.
Proof.
  unfold UserData.add_list, bind, UserData.mutation.
  destruct (faults w (writes w)); [done|].
  destruct name as [[n| | |]|]; simpl; eauto.
Qed.

Section Run.

Variable from_ical : string → result Component.
Variable repr : prop → string.

Lemma finish_run (w : World) :
  finish w =
    (Ok Imported, set_trace (trace w ++ [UpdateUi; AddToast "Imported"; SyncSync]) w).
Proof.
  unfold finish, bind, update_ui, add_toast, Sync.sync, emit, ret. simpl.
  unfold set_trace. simpl. now rewrite <- !app_assoc.
Qed.

(** The import with its stages spelled out, for a chosen file. *)
Lemma confirm_stages (file : GFile) (w : World) :
  _confirm from_ical repr (Ok file) w =
    match files w !! get_path file with
    | None => (Raise OSError, w)
    | Some contents =>
        match from_ical contents with
        | Raise e => (Raise e, w)
        | Ok calendar =>
            match unique_name repr (list_name calendar file) w with
            | (Raise e, w0) => (Raise e, w0)
            | (Ok name, w0) =>
                match UserData.add_list name w0 with
                | (Raise e, w1) => (Raise e, w1)
                | (Ok l, w1) =>
                    match for_each (walk "VTODO" calendar) (add_todo repr l) w1 with
                    | (Raise e, w2) => (Raise e, w2)
                    | (Ok _, w2) => finish w2
                    end
                end
            end
        end
    end.
Proof.
  unfold _confirm, bind at 1, read_text.
  destruct (files w !! get_path file) as [contents|]; [|done].
  unfold bind at 1, lift.
  destruct (from_ical contents) as [calendar|e]; [|done].
  unfold bind at 1.
  destruct (unique_name repr (list_name calendar file) w) as [[name|e] w0]; [|done].
  unfold bind at 1.
  destruct (UserData.add_list name w0) as [[l|e] w1]; [|done].
  unfold bind at 1.
  now destruct (for_each (walk "VTODO" calendar) (add_todo repr l) w1) as [[[]|e] w2].
Qed.

(** What [unique_name] gives for a text name. *)
Lemma unique_name_run (n : string) (w : World) :
  unique_name repr (Single (vText n)) w =
    if decide (n ∈ list_row_name <$> lists w)
    then (Ok (Single (vText (n +:+ "_" +:+ uuids w (drawn w)))),
          set_drawn (S (drawn w)) w)
    else (Ok (Single (vText n)), w).
Proof.
  unfold unique_name, bind, UserData.run_sql_select_name_from_lists.
  destruct (existsb (eq_str (Single (vText n))) (list_row_name <$> lists w))
    eqn:Hin.
  - apply existsb_eq_str in Hin. now rewrite decide_True.
  - rewrite decide_False; [done|]. intros Hn%existsb_eq_str. congruence.
Qed.

End Run.

Section RunClaims.

Variable from_ical : string → result Component.
Variable repr : prop → string.

(** C3 (amended): a name no list has is kept as it is; a name some list
    has becomes that name, an underscore and the next generated
    identifier, which differs from the name. The new name is outside
    the existing names when no list already carries it; the code does
    not look a second time. *)
Theorem unique_name_suffix (n : string) (w : World) :
  let existing := list_row_name <$> lists w in
  let suffixed := n +:+ "_" +:+ uuids w (drawn w) in
  (n ∉ existing →
   unique_name repr (Single (vText n)) w = (Ok (Single (vText n)), w))
  ∧ (n ∈ existing →
     unique_name repr (Single (vText n)) w
       = (Ok (Single (vText suffixed)), set_drawn (S (drawn w)) w)
     ∧ suffixed ≠ n
     ∧ ((∀ row, row ∈ lists w → list_row_name row ≠ suffixed) →
        suffixed ∉ existing)).
Proof.
  intros existing suffixed. rewrite unique_name_run. split.
  - intros Hn. now rewrite decide_False.
  - intros Hn. rewrite decide_True by done. split; [done|]. split.
    + apply suffixed_ne.
    + intros Hfree (row & Hrow & Hin)%list_elem_of_fmap.
      now apply (Hfree row).
Qed.

(** C10: a list in the trash counts. When some list has the name, even
    one whose [deleted] flag is set and even if no other list has it,
    the imported list gets the name with a suffix, and that is the name
    of the row the import adds. *)
Theorem deleted_list_name_collides (n : string) (w : World) (row : ListRow) :
  row ∈ lists w → list_row_name row = n → list_row_deleted row = true →
  let suffixed := n +:+ "_" +:+ uuids w (drawn w) in
  unique_name repr (Single (vText n)) w
    = (Ok (Single (vText suffixed)), set_drawn (S (drawn w)) w)
  ∧ suffixed ≠ n
  ∧ (∀ file contents calendar,
       files w !! get_path file = Some contents →
       from_ical contents = Ok calendar →
       list_name calendar file = Single (vText n) →
       faults w (writes w) = false →
       lists (_confirm from_ical repr (Ok file) w).2
         = lists w ++ [mkListRow (uuids w (S (drawn w))) suffixed false]).
Proof.
  intros Hrow Hname _ suffixed.
  assert (n ∈ list_row_name <$> lists w) as Hin.
  { apply list_elem_of_fmap. eauto. }
  split; [|split].
  - rewrite unique_name_run. now rewrite decide_True.
  - apply suffixed_ne.
  - intros file contents calendar Hfile Hparse Hlist Hfault.
    rewrite confirm_stages, Hfile, Hparse, Hlist, unique_name_run.
    rewrite decide_True by done.
    unfold UserData.add_list, bind at 1, UserData.mutation. simpl.
    rewrite Hfault. unfold bind at 1, uuid4. simpl.
    match goal with
    | |- context [for_each ?ts ?b ?w1] =>
        pose proof (preserves_for_each lists ts b
                      (add_todo_lists repr _) w1) as Hloop;
        destruct (for_each ts b w1) as [[[]|e] w2]
    end.
    + rewrite finish_run. exact Hloop.
    + exact Hloop.
Qed.

(** C5: when the parser rejects the file, the import ends with the
    parser's exception and the world is what it was: no list, no task,
    no call. When the list and some tasks are stored and the next task
    cannot be stored, the import ends with that exception and the list
    and those tasks are still there. *)
Theorem parse_failure_changes_nothing (file : GFile) (w : World)
    (contents : string) :
  files w !! get_path file = Some contents →
  (∀ e, from_ical contents = Raise e →
        _confirm from_ical repr (Ok file) w = (Raise e, w))
  ∧ (∀ calendar done todo rest name w0 l w1 w2 e w3,
       from_ical contents = Ok calendar →
       walk "VTODO" calendar = done ++ todo :: rest →
       unique_name repr (list_name calendar file) w = (Ok name, w0) →
       UserData.add_list name w0 = (Ok l, w1) →
       for_each done (add_todo repr l) w1 = (Ok tt, w2) →
       add_todo repr l todo w2 = (Raise e, w3) →
       _confirm from_ical repr (Ok file) w = (Raise e, w3)
       ∧ (∃ n, lists w3 = lists w ++ [mkListRow l n false])
       ∧ (∃ rows, tasks w3 = tasks w ++ rows
                  ∧ length rows = length done
                  ∧ ∀ i row, rows !! i = Some row →
                      ∃ t, done !! i = Some t ∧ created_from repr l t row)
       ∧ trace w3 = trace w).
Proof.
  intros Hfile. split.
  - intros e Hparse. now rewrite confirm_stages, Hfile, Hparse.
  - intros calendar done todo rest name w0 l w1 w2 e w3
      Hparse Hwalk Hname Hlist Hdone Htodo.
    assert (for_each (walk "VTODO" calendar) (add_todo repr l) w1
            = (Raise e, w3)) as Hloop.
    { rewrite Hwalk, for_each_app, Hdone. simpl. unfold bind.
      now rewrite Htodo. }
    split; [|split; [|split]].
    + now rewrite confirm_stages, Hfile, Hparse, Hname, Hlist, Hloop.
    + pose proof (add_list_lists name w0) as Hl. rewrite Hlist in Hl.
      destruct Hl as (n & _ & Hl). exists n.
      pose proof (unique_name_lists repr (list_name calendar file) w) as H0.
      rewrite Hname in H0. simpl in H0.
      pose proof (preserves_for_each lists done _ (add_todo_lists repr l) w1) as H2.
      rewrite Hdone in H2. simpl in H2.
      pose proof (add_todo_lists repr l todo w2) as H3.
      rewrite Htodo in H3. simpl in H3. congruence.
    + destruct (for_each_rows repr l done w1) as (rows & Hrows & Hall & Hlen).
      rewrite Hdone in Hrows, Hlen. simpl in Hrows, Hlen.
      exists rows. split; [|done].
      pose proof (add_todo_rows repr l todo w2) as H3. rewrite Htodo in H3.
      pose proof (unique_name_tasks repr (list_name calendar file) w) as H0.
      rewrite Hname in H0. simpl in H0.
      pose proof (add_list_tasks name w0) as H1.
      rewrite Hlist in H1. simpl in H1. congruence.
    + pose proof (unique_name_trace repr (list_name calendar file) w) as H0.
      rewrite Hname in H0. simpl in H0.
      pose proof (add_list_trace name w0) as H1.
      rewrite Hlist in H1. simpl in H1.
      pose proof (preserves_for_each trace done _ (add_todo_trace repr l) w1) as H2.
      rewrite Hdone in H2. simpl in H2.
      pose proof (add_todo_trace repr l todo w2) as H3.
      rewrite Htodo in H3. simpl in H3. congruence.
Qed.

End RunClaims.

Section Linkage.

Variable repr : prop → string.



End Linkage.

Section OrderClaims.

Variable from_ical : string → result Component.
Variable repr : prop → string.

(** C9: the sync is called once when the import reaches its end and
    not at all otherwise: not when the dialog was dismissed, and not
    when reading, parsing, creating the list or creating a task
    raises. *)
Theorem sync_once_on_success (res : result GFile) (w : World) :
  syncs (trace (_confirm from_ical repr res w).2) =
    (syncs (trace w)
     + match (_confirm from_ical repr res w).1 with
       | Ok Imported => 1
       | _ => 0
       end)%nat.
Proof.
  destruct res as [file|e].
  - rewrite confirm_stages.
    destruct (files w !! get_path file) as [contents|]; [|simpl; lia].
    destruct (from_ical contents) as [calendar|e]; [|simpl; lia].
    pose proof (unique_name_trace repr (list_name calendar file) w) as H0.
    destruct (unique_name repr (list_name calendar file) w) as [[name|e] w0];
      simpl in H0; [|simpl; rewrite H0; lia].
    pose proof (add_list_trace name w0) as H1.
    destruct (UserData.add_list name w0) as [[l|e] w1];
      simpl in H1; [|simpl; rewrite H1, H0; lia].
    pose proof (preserves_for_each trace (walk "VTODO" calendar) _
                  (add_todo_trace repr l) w1) as H2.
    destruct (for_each (walk "VTODO" calendar) (add_todo repr l) w1)
      as [[[]|e] w2]; simpl in H2; [|simpl; rewrite H2, H1, H0; lia].
    rewrite finish_run. simpl. rewrite syncs_app, H2, H1, H0.
    reflexivity.
  - simpl. rewrite syncs_app. reflexivity.
Qed.


End OrderClaims.

(** *** The properties at the sample documents *)

Import Samples.

(** C1 (counterexample): a PRIORITY that is text and no number makes the
    evaluation of the task's fields raise [ValueError] instead of giving
    priority 0, and a negative PRIORITY gives a negative priority. *)
Lemma numeric_fields_not_fail_closed :
  task_fields repr_object "list-1" todo_priority_text = Raise ValueError
  ∧ ∃ f, task_fields repr_object "list-1" todo_priority_negative = Ok f
         ∧ priority f = -5 ∧ ¬ (0 ≤ priority f).
Proof.
  split; [reflexivity|]. eexists. split; [reflexivity|]. simpl. split; lia.
Qed.

(** The three cases of C1 at sample tasks: an integer, an absent field,
    a text that is no number. *)
Lemma numeric_fields_int_or_raise_witness :
  import_priority todo_report = Ok 5
  ∧ import_percent_complete todo_outline = Ok 0
  ∧ ∃ e, task_fields repr_object "list-1" todo_priority_text = Raise e.
Proof.
  split; [|split].
  - apply (proj1 (proj2 (numeric_fields_int_or_raise repr_object "list-1"
                           todo_report)) 5).
    reflexivity.
  - apply (proj1 (proj2 (proj2 (numeric_fields_int_or_raise repr_object "list-1"
                                  todo_outline)))).
    reflexivity.
  - apply (proj2 (proj2 (proj2 (proj2 (proj2
             (numeric_fields_int_or_raise repr_object "list-1"
                todo_priority_text)))))).
    left. reflexivity.
Defined.


(** C3 (counterexample): with the lists Groceries and Groceries_uuid-0
    and uuid-0 the next identifier, the name Groceries is resolved to
    Groceries_uuid-0, which is the name of an existing list. *)
Lemma unique_name_collides :
  "Groceries" ∈ list_row_name <$> lists world_clash
  ∧ (unique_name repr_object (Single (vText "Groceries")) world_clash).1
      = Ok (Single (vText "Groceries_uuid-0"))
  ∧ "Groceries_uuid-0" ∈ list_row_name <$> lists world_clash.
Proof.
  split; [|split].
  - simpl. repeat constructor.
  - reflexivity.
  - simpl. repeat constructor.
Qed.

(** C3 (amended) at a store with one list: a taken and a free name. *)
Lemma unique_name_suffix_witness :
  unique_name repr_object (Single (vText "Groceries")) world_trashed
    = (Ok (Single (vText "Groceries_uuid-0")), set_drawn 1 world_trashed)
  ∧ unique_name repr_object (Single (vText "Chores")) world_trashed
    = (Ok (Single (vText "Chores")), world_trashed).
Proof.
  split.
  - apply (proj2 (unique_name_suffix repr_object "Groceries" world_trashed)).
    simpl. repeat constructor.
  - apply (proj1 (unique_name_suffix repr_object "Chores" world_trashed)).
    simpl. intros H. apply list_elem_of_singleton in H. discriminate.
Defined.

(** C10 at a store whose only list is in the trash. *)
Lemma deleted_list_name_collides_witness :
  unique_name repr_object (Single (vText "Groceries")) world_trashed
    = (Ok (Single (vText "Groceries_uuid-0")), set_drawn 1 world_trashed)
  ∧ lists (_confirm parse repr_object (Ok file_report) world_trashed).2
    = [mkListRow "list-0" "Groceries" true;
       mkListRow "uuid-1" "Groceries_uuid-0" false].
Proof.
  destruct (deleted_list_name_collides parse repr_object "Groceries"
              world_trashed (mkListRow "list-0" "Groceries" true))
    as (Hname & _ & Hrun).
  - simpl. repeat constructor.
  - reflexivity.
  - reflexivity.
  - split; [exact Hname|].
    apply (Hrun file_report "BEGIN:VCALENDAR report" calendar_report);
      reflexivity.
Defined.

(** C5 at a file the parser rejects, and at a store that refuses the
    second task of the sample document. *)
Lemma parse_failure_changes_nothing_witness :
  _confirm parse repr_object (Ok file_broken) world_empty
    = (Raise ValueError, world_empty)
  ∧ ∃ w3, _confirm parse repr_object (Ok file_report) world_faulty
            = (Raise StoreError, w3)
          ∧ length (lists w3) = 1%nat ∧ length (tasks w3) = 1%nat.
Proof.
  split.
  - apply (proj1 (parse_failure_changes_nothing parse repr_object file_broken
                    world_empty "BEGIN:VCALEN" eq_refl)).
    reflexivity.
  - edestruct (proj2 (parse_failure_changes_nothing parse repr_object file_report
                        world_faulty "BEGIN:VCALENDAR report" eq_refl)
                 calendar_report [todo_outline] todo_report [])
      as (Hrun & (n & Hlists) & (rows & Htasks & Hlen & _) & _);
      try reflexivity.
    eexists. split; [exact Hrun|]. split.
    + rewrite Hlists. reflexivity.
    + rewrite Htasks. simpl. exact Hlen.
Defined.

(** C6 at a finished task and at a task without STATUS. *)
Lemma completed_iff_status_completed_witness :
  import_completed repr_object todo_report = true
  ∧ import_completed repr_object todo_outline = false.
Proof.
  split.
  - apply (proj1 (proj2 (completed_iff_status_completed repr_object todo_report))
             "COMPLETED"); reflexivity.
  - apply (proj1 (completed_iff_status_completed repr_object todo_outline)).
    reflexivity.
Defined.

(** C7 at a task with DTSTART, DUE and DTEND, and at one without dates. *)
Lemma dates_strip_trailing_Z_witness :
  import_start todo_report = Ok "20240101T120000"
  ∧ import_end todo_report = Ok "20240102T090000"
  ∧ import_start todo_outline = Ok "".
Proof.
  split; [|split].
  - exact (proj1 (proj2 (dates_strip_trailing_Z todo_report))
             "20240101T120000Z" eq_refl).
  - exact (proj1 (proj2 (proj2 (proj2 (dates_strip_trailing_Z todo_report))))
             "20240102T090000Z" eq_refl).
  - exact (proj1 (dates_strip_trailing_Z todo_outline) eq_refl).
Defined.


(** The import of the sample document into an empty store: the list
    takes the declared name, the subtask stored first names its parent
    stored second, and the sync is the last call. *)
Example import_report :
  let run := _confirm parse repr_object (Ok file_report) world_empty in
  run.1 = Ok Imported
  ∧ lists run.2 = [mkListRow "uuid-0" "Groceries" false]
  ∧ (λ row, (task_row_uid row, parent (task_row_fields row),
             list_uid (task_row_fields row))) <$> tasks run.2
    = [("outline-1", "report-1", "uuid-0"); ("report-1", "", "uuid-0")]
  ∧ trace run.2 = [UpdateUi; AddToast "Imported"; SyncSync].
Proof. vm_compute. repeat split. Qed.

(** A document whose second task has a PRIORITY that is no number: the
    list, named by [rstrip], and the first task stay; nothing is called. *)
Example import_stops_at_bad_priority :
  let run := _confirm parse repr_object (Ok file_basics) world_empty in
  run.1 = Raise ValueError
  ∧ lists run.2 = [mkListRow "uuid-0" "ba" false]
  ∧ task_row_uid <$> tasks run.2 = ["report-1"]
  ∧ trace run.2 = [].
Proof. vm_compute. repeat split. Qed.

(** Dismissing the dialog is logged and nothing else happens. *)
Example import_cancelled :
  _confirm parse repr_object (Raise OSError) world_empty
    = (Ok Cancelled,
       set_trace [LogDebug "Lists: Import cancelled"] world_empty).
Proof. reflexivity. Qed.

Example rstrip_examples :
  rstrip ".ics" "todo.ics" = "todo" ∧ rstrip ".ics" "groceries.ics" = "grocerie"
  ∧ rstrip ".ics" "notes.txt" = "notes.txt".
Proof. repeat split; reflexivity. Qed.

Example strip_z : strip "Z" "20240101T120000Z" = "20240101T120000".
Proof. reflexivity. Qed.

Example str_int_examples :
  str_int 0 = "0" ∧ str_int 42 = "42" ∧ str_int (-5) = "-5".
Proof. repeat split; reflexivity. Qed.

Example int_str_examples :
  int_str "7" = Ok 7 ∧ int_str " -12 " = Ok (-12) ∧ int_str "1_000" = Ok 1000
  ∧ int_str "high" = Raise ValueError ∧ int_str "" = Raise ValueError
  ∧ int_str "1__0" = Raise ValueError ∧ int_str "5_" = Raise ValueError.
Proof. repeat split; reflexivity. Qed.

Example replace_examples :
  replace "," "\," "a,b,,c" = "a\,b\,\,c" ∧ replace "ab" "x" "aabab" = "axx".
Proof. repeat split; reflexivity. Qed.

(** ** Further properties of the import *)

(** *** What [rstrip] and [strip] leave *)

Lemma rstrip_keeps_last (chars s : string) : last_kept chars (rstrip chars s) = true.
Proof.
  induction s as [|c s IH]; [done|]. simpl.
  destruct (rstrip chars s) as [|d r] eqn:Hr.
  - destruct (char_in c chars) eqn:Hc; [done|]. simpl. now rewrite Hc.
  - exact IH.
Qed.

Lemma rstrip_prefix (chars s : string) : String.prefix (rstrip chars s) s = true.
Proof.
  induction s as [|c s IH]; [done|]. simpl.
  destruct (rstrip chars s) as [|d r] eqn:Hr.
  - destruct (char_in c chars); [done|]. simpl.
    destruct (ascii_dec c c); [|done]. now destruct s.
  - simpl. destruct (ascii_dec c c); [|done]. exact IH.
Qed.

Lemma rstrip_fixed_iff (chars s : string) :
  rstrip chars s = s ↔ last_kept chars s = true.
Proof.
  split.
  - intros H. rewrite <- H. apply rstrip_keeps_last.
  - apply rstrip_last_kept.
Qed.

Lemma rstrip_app_all (chars s t : string) :
  all_in chars t = true → rstrip chars (s +:+ t) = rstrip chars s.
Proof.
  revert s. induction t as [|c t IH]; intros s Ht.
  - assert (s +:+ "" = s) as Hs.
    { clear. induction s as [|d s IHs]; [done|].
      change (String d (s +:+ "") = String d s). now f_equal. }
    now rewrite Hs.
  - simpl in Ht. apply andb_true_iff in Ht as [Hc Ht].
    assert (s +:+ String c t = (s +:+ String c "") +:+ t) as ->.
    { clear. induction s as [|d s IHs]; [done|].
      change (String d (s +:+ String c t) = String d ((s +:+ String c "") +:+ t)).
      now f_equal. }
    rewrite IH by done. now apply rstrip_app_stripped.
Qed.

Lemma lstrip_keeps_first (chars s : string) : first_kept chars (lstrip chars s) = true.
Proof.
  induction s as [|c s IH]; [done|]. simpl.
  destruct (char_in c chars) eqn:Hc; [done|]. simpl. now rewrite Hc.
Qed.

Lemma lstrip_keeps_last (chars s : string) :
  last_kept chars s = true → last_kept chars (lstrip chars s) = true.
Proof.
  induction s as [|c s IH]; [done|]. intros H. simpl.
  destruct (char_in c chars) eqn:Hc; [|done].
  apply IH. destruct s; [done|exact H].
Qed.

(** [strip] leaves a text that neither begins nor ends with a stripped
    character. *)
Lemma strip_clean (chars s : string) :
  first_kept chars (strip chars s) = true ∧ last_kept chars (strip chars s) = true.
Proof.
  unfold strip. split.
  - apply lstrip_keeps_first.
  - apply lstrip_keeps_last, rstrip_keeps_last.
Qed.

Section MoreFields.

Variable repr : prop → string.

(** X1: a start or end date that the import computes neither begins nor
    ends with the letter Z, whatever the DTSTART, DUE or DTEND value is. *)
Theorem dates_have_no_Z_at_the_ends (todo : Component) (s : string) :
  import_start todo = Ok s ∨ import_end todo = Ok s →
  first_kept "Z" s = true ∧ last_kept "Z" s = true.
Proof.
  assert (∀ v, rbind (value_to_ical v) (λ t, Ok (strip "Z" t)) = Ok s →
               first_kept "Z" s = true ∧ last_kept "Z" s = true) as Hstrip.
  { intros [p|ps]; simpl; [|discriminate]. intros [= <-]. apply strip_clean. }
  unfold import_start, import_end. intros [H|H].
  - destruct (ne_empty _); [now apply Hstrip in H|]. now injection H as <-.
  - destruct (ne_empty _); [now apply Hstrip in H|]. now injection H as <-.
Qed.

(** X2: without a declared calendar name the list name is a beginning of
    the file's base name that does not end in ".", "i", "c" or "s". For a
    base name stem.ics it is the stem exactly when the stem does not end
    in one of these four characters. *)
Theorem fallback_name_shape (calendar : Component) (file : GFile) :
  props calendar !! "X-WR-CALNAME" = None →
  ∃ name,
    list_name calendar file = Single (vText name)
    ∧ String.prefix name (get_basename file) = true
    ∧ last_kept ".ics" name = true
    ∧ ∀ stem, get_basename file = stem +:+ ".ics" →
              (name = stem ↔ last_kept ".ics" stem = true).
Proof.
  intros Habsent. exists (rstrip ".ics" (get_basename file)).
  split; [now apply list_name_fallback|]. split; [apply rstrip_prefix|].
  split; [apply rstrip_keeps_last|].
  intros stem ->. rewrite rstrip_app_all by reflexivity.
  apply rstrip_fixed_iff.
Qed.

Lemma append_assoc (a b c : string) : (a +:+ b) +:+ c = a +:+ (b +:+ c).
Proof.
  induction a as [|x a IH]; [done|].
  change (String x ((a +:+ b) +:+ c) = String x (a +:+ (b +:+ c))).
  now f_equal.
Qed.

Lemma join_app (sep : string) (xs ys : list string) :
  xs ≠ [] → ys ≠ [] →
  join sep (xs ++ ys) = join sep xs +:+ sep +:+ join sep ys.
Proof.
  intros Hxs Hys. induction xs as [|x xs IH]; [done|].
  destruct xs as [|x' xs].
  - simpl. now destruct ys.
  - change (join sep ((x :: x' :: xs) ++ ys))
      with (x +:+ sep +:+ join sep ((x' :: xs) ++ ys)).
    rewrite IH by done.
    change (join sep (x :: x' :: xs)) with (x +:+ sep +:+ join sep (x' :: xs)).
    now rewrite !append_assoc.
Qed.

Lemma join_categories (css : list (list string)) :
  Forall (λ cs, cs ≠ []) css →
  join "," (to_ical <$> (vCategory <$> css))
    = join "," (escape_char <$> concat css).
Proof.
  induction 1 as [|cs css Hcs Hcss IH]; [done|].
  destruct css as [|cs' css].
  - simpl. now rewrite app_nil_r.
  - change (join "," (to_ical <$> (vCategory <$> cs :: cs' :: css)))
      with (join "," (escape_char <$> cs) +:+ ","
            +:+ join "," (to_ical <$> (vCategory <$> cs' :: css))).
    rewrite IH. change (concat (cs :: cs' :: css)) with (cs ++ concat (cs' :: css)).
    rewrite fmap_app, join_app; [done| |].
    + now destruct cs.
    + inversion Hcss as [|? ? Hcs' _]; subst. simpl. now destruct cs'.
Qed.

(** X3: a CATEGORIES property that occurs several times gives the tags
    of the one property that carries all the categories in the same
    order, as long as no occurrence is without categories. *)
Theorem repeated_categories_flatten (todo : Component) (css : list (list string)) :
  props todo !! "CATEGORIES" = Some (Multiple (vCategory <$> css)) →
  Forall (λ cs, cs ≠ []) css →
  import_tags repr todo = Ok (join "," (escape_char <$> concat css))
  ∧ ∀ todo', props todo' !! "CATEGORIES" = Some (Single (vCategory (concat css))) →
             import_tags repr todo' = import_tags repr todo.
Proof.
  intros Hcat Hcss.
  assert (import_tags repr todo = Ok (join "," (escape_char <$> concat css)))
    as Htags.
  { unfold import_tags, get. rewrite Hcat. simpl. f_equal.
    now apply join_categories. }
  split; [done|]. intros todo' Hcat'. rewrite Htags.
  unfold import_tags, get. rewrite Hcat'. simpl. f_equal. f_equal.
  rewrite <- list_fmap_compose. reflexivity.
Qed.

End MoreFields.

(** *** What one import does to the store *)

Section MoreRuns.

Variable from_ical : string → result Component.
Variable repr : prop → string.

Lemma created_in_list (l : string) (todo : Component) (row : TaskRow) :
  created_from repr l todo row → list_uid (task_row_fields row) = l.
Proof.
  intros [Hf _]. apply task_fields_ok in Hf. now destruct Hf as (_&_&_&_&_&_&_&_&->).
Qed.

(** X4: an import never removes or changes a list or a task that is
    already stored. It either leaves lists and tasks as they are, or
    adds one list that is not flagged deleted and, after the stored
    tasks, tasks that all belong to that list. *)
Theorem import_only_adds_one_list (res : result GFile) (w : World) :
  let w' := (_confirm from_ical repr res w).2 in
  (lists w' = lists w ∧ tasks w' = tasks w)
  ∨ ∃ l n rows,
      lists w' = lists w ++ [mkListRow l n false]
      ∧ tasks w' = tasks w ++ rows
      ∧ ∀ row, row ∈ rows → list_uid (task_row_fields row) = l.
Proof.
  destruct res as [file|e]; [|now left]. cbv zeta. rewrite confirm_stages.
  destruct (files w !! get_path file) as [contents|]; [|now left].
  destruct (from_ical contents) as [calendar|e]; [|now left].
  pose proof (unique_name_lists repr (list_name calendar file) w) as Hl0.
  pose proof (unique_name_tasks repr (list_name calendar file) w) as Ht0.
  destruct (unique_name repr (list_name calendar file) w) as [[name|e] w0];
    simpl in Hl0, Ht0; [|now left].
  pose proof (add_list_lists name w0) as Hl1.
  pose proof (add_list_tasks name w0) as Ht1.
  destruct (UserData.add_list name w0) as [[l|e] w1]; simpl in Ht1.
  2:{ left. simpl. split; congruence. }
  destruct Hl1 as (n & _ & Hl1). right. exists l, n.
  destruct (for_each_rows repr l (walk "VTODO" calendar) w1)
    as (rows & Hrows & Hall & _).
  pose proof (preserves_for_each lists (walk "VTODO" calendar) _
                (add_todo_lists repr l) w1) as Hl2.
  exists rows.
  assert (∀ row, row ∈ rows → list_uid (task_row_fields row) = l) as Hin.
  { intros row (i & Hi)%list_elem_of_lookup.
    destruct (Hall i row Hi) as (todo & _ & Hc).
    exact (created_in_list l todo row Hc). }
  destruct (for_each (walk "VTODO" calendar) (add_todo repr l) w1)
    as [[[]|e] w2]; simpl in Hrows, Hl2.
  - rewrite finish_run. simpl. repeat split; [congruence|congruence|done].
  - simpl. repeat split; [congruence|congruence|done].
Qed.

Lemma task_fields_any_list (l l' : string) (todo : Component) (f : TaskFields) :
  task_fields repr l todo = Ok f → ∃ f', task_fields repr l' todo = Ok f'
                                         ∧ uid f' = get_opt todo "UID".
Proof.
  intros Hf. apply task_fields_ok in Hf.
  destruct Hf as (Ht & Hs & He & Hpc & Hpr & _).
  unfold task_fields. rewrite Ht, Hs, He, Hpc, Hpr. simpl. eauto.
Qed.

Lemma add_todo_importable (l : string) (todo : Component) (w : World) :
  importable repr todo → (∀ k, faults w k = false) →
  ∃ w', add_todo repr l todo w = (Ok tt, w')
        ∧ faults w' = faults w
        ∧ length (tasks w') = S (length (tasks w))
        ∧ lists w' = lists w.
Proof.
  intros [[f Hf] Huid] Hfaults.
  destruct (task_fields_any_list "" l todo f Hf) as (f' & Hf' & Hu).
  unfold add_todo, bind, lift. rewrite Hf'.
  unfold UserData.add_task, bind, UserData.mutation. rewrite Hfaults.
  rewrite Hu. unfold get_opt.
  destruct Huid as [->|[u ->]]; simpl.
  - eexists. split; [reflexivity|]. simpl. rewrite length_app. simpl.
    repeat split. lia.
  - destruct (String.eqb u ""); simpl;
      (eexists; split; [reflexivity|]; simpl; rewrite length_app; simpl;
       repeat split; lia).
Qed.

Lemma for_each_importable (l : string) (todos : list Component) (w : World) :
  Forall (importable repr) todos → (∀ k, faults w k = false) →
  ∃ w', for_each todos (add_todo repr l) w = (Ok tt, w')
        ∧ length (tasks w') = (length (tasks w) + length todos)%nat
        ∧ lists w' = lists w.
Proof.
  intros Hall. revert w. induction Hall as [|todo todos Htodo _ IH]; intros w Hf.
  - exists w. simpl. repeat split. lia.
  - destruct (add_todo_importable l todo w Htodo Hf) as (w1 & Hrun & Hf1 & Hlen & Hl).
    destruct (IH w1) as (w2 & Hrun2 & Hlen2 & Hl2).
    { intros k. now rewrite Hf1. }
    exists w2. simpl. unfold bind. rewrite Hrun. split; [exact Hrun2|].
    split; [|congruence]. simpl. lia.
Qed.

(** X5: when the file can be read and parsed, the list name is text,
    the store refuses nothing and every VTODO component is importable,
    the import reaches its end: one list is added, one task for each
    VTODO component, and the sync is called. A document without any
    VTODO component gives an empty list. *)
Theorem importable_document_is_imported (file : GFile) (w : World)
    (contents : string) (calendar : Component) (n : string) :
  files w !! get_path file = Some contents →
  from_ical contents = Ok calendar →
  list_name calendar file = Single (vText n) →
  (∀ k, faults w k = false) →
  Forall (importable repr) (walk "VTODO" calendar) →
  ∃ w', _confirm from_ical repr (Ok file) w = (Ok Imported, w')
        ∧ length (lists w') = S (length (lists w))
        ∧ length (tasks w')
          = (length (tasks w) + length (walk "VTODO" calendar))%nat
        ∧ syncs (trace w') = S (syncs (trace w)).
Proof.
  intros Hfile Hparse Hname Hfaults Hall.
  rewrite confirm_stages, Hfile, Hparse, Hname, unique_name_run.
  set (w0 := if decide (n ∈ list_row_name <$> lists w)
             then set_drawn (S (drawn w)) w else w).
  assert (faults w0 = faults w ∧ lists w0 = lists w ∧ tasks w0 = tasks w
          ∧ trace w0 = trace w) as (Hf0 & Hl0 & Ht0 & Htr0).
  { unfold w0. now destruct (decide _). }
  assert (∃ name,
            (if decide (n ∈ list_row_name <$> lists w)
             then (Ok (Single (vText (n +:+ "_" +:+ uuids w (drawn w)))),
                   set_drawn (S (drawn w)) w)
             else (Ok (Single (vText n)), w))
            = (Ok (Single (vText name)), w0)) as [name ->].
  { unfold w0. destruct (decide _); eauto. }
  unfold UserData.add_list, bind at 1, UserData.mutation.
  rewrite Hf0, Hfaults. unfold bind at 1, uuid4.
  match goal with
  | |- context [for_each ?ts (add_todo repr ?l) ?w1] =>
      destruct (for_each_importable l ts w1 Hall)
        as (w2 & Hrun & Hlen & Hl2);
      [intros k; simpl; now rewrite Hf0|];
      pose proof (preserves_for_each trace ts _ (add_todo_trace repr l) w1) as Htr2
  end.
  rewrite Hrun in Htr2 |- *. simpl in Htr2, Hlen, Hl2.
  rewrite finish_run. eexists. split; [reflexivity|]. simpl.
  rewrite Hl2, length_app, Hl0, Hlen, Ht0, syncs_app, Htr2, Htr0. simpl.
  change (syncs [UpdateUi; AddToast "Imported"; SyncSync]) with 1%nat.
  repeat split; lia.
Qed.

End MoreRuns.

(** ** The sidebar and the dialog *)

(** *** Statements that only read the store *)

Lemma same_store_refl (w : World) : same_store w w.
Proof. done. Qed.

Lemma same_store_trans (w1 w2 w3 : World) :
  same_store w1 w2 → same_store w2 w3 → same_store w1 w3.
Proof. unfold same_store. intros (?&?&?) (?&?&?). repeat split; congruence. Qed.

Lemma reads_ret {A} (a : A) (w : World) (post : A → Prop) :
  post a → reads (ret a) w post.
Proof. intros Ha. exists a, w. repeat split; done. Qed.

Lemma reads_bind {A B} (m : M A) (k : A → M B) (w : World)
    (mid : A → Prop) (post : B → Prop) :
  reads m w mid →
  (∀ a w', same_store w w' → mid a → reads (k a) w' post) →
  reads (bind m k) w post.
Proof.
  intros (a & w1 & Hm & Hs1 & Ha) Hk.
  destruct (Hk a w1 Hs1 Ha) as (b & w2 & Hkb & Hs2 & Hb).
  exists b, w2. unfold bind. rewrite Hm. split; [done|].
  split; [|done]. now apply (same_store_trans w w1 w2).
Qed.

Lemma reads_weaken {A} (m : M A) (w : World) (post post' : A → Prop) :
  reads m w post → (∀ a, post a → post' a) → reads m w post'.
Proof. intros (a & w' & ? & ? & ?) Himp. exists a, w'. auto. Qed.

Lemma reads_debug (msg : string) (w : World) : reads (Log.debug msg) w (λ _, True).
Proof.
  eexists tt, _. split; [reflexivity|]. split; [|done].
  repeat split. simpl. now rewrite syncs_app, Nat.add_0_r.
Qed.

Lemma reads_get_lists_as_dicts (w : World) :
  reads UserData.get_lists_as_dicts w (λ dicts, dicts = lists w).
Proof. exists (lists w), w. repeat split. Qed.

(** A loop that only reads the store: [inv done rest] holds of the
    widgets when [done] has been worked through and [rest] is left. *)
Lemma reads_for_fold {A S} (inv : list A → list A → S → Prop)
    (body : A → S → M S) (rest done : list A) (s : S) (w : World) :
  inv done rest s →
  (∀ d x r s' w', inv d (x :: r) s' → reads (body x s') w' (inv (d ++ [x]) r)) →
  reads (Sidebar.for_fold rest body s) w (inv (done ++ rest) []).
Proof.
  intros Hinv Hbody. revert done s w Hinv.
  induction rest as [|x rest IH]; intros done s w Hinv.
  - rewrite app_nil_r. now apply reads_ret.
  - simpl. eapply reads_bind; [exact (Hbody done x rest s w Hinv)|].
    intros s' w' _ Hs'. replace (done ++ x :: rest) with ((done ++ [x]) ++ rest)
      by now rewrite <- app_assoc.
    now apply IH.
Qed.

Import Sidebar.

Lemma reads_on_list_swiched (row : option TaskListsItem) (ui : Ui) (w : World) :
  reads (on_list_swiched row ui) w
    (λ ui', ui' = match row with
                  | Some r =>
                      set_status_visible false
                        (set_last_open_list (label r)
                           (call (SetShowContent true)
                              (call (SetVisibleChildName (label r)) ui)))
                  | None => ui
                  end).
Proof.
  unfold on_list_swiched. eapply reads_bind; [apply reads_debug|].
  intros _ w' _ _. destruct row; now apply reads_ret.
Qed.

(** Selecting a row changes neither the rows nor the pages, and selects
    the row unless it (the same widget) is selected. *)
Lemma reads_select_row (row : TaskListsItem) (ui : Ui) (w : World) :
  reads (select_row row ui) w
    (λ ui', rows ui' = rows ui ∧ pages ui' = pages ui ∧ widgets ui' = widgets ui
            ∧ (if is_selected row ui
               then ui' = ui
               else selected ui' = Some row ∧ last_open_list ui' = label row)).
Proof.
  unfold select_row. destruct (is_selected row ui).
  - now apply reads_ret.
  - eapply reads_weaken; [apply reads_on_list_swiched|].
    now intros ui' ->.
Qed.

Lemma reads_remove (row : TaskListsItem) (ui : Ui) (w : World) :
  reads (remove row ui) w
    (λ ui', rows ui' = filter (λ r, is_row r row = false) (rows ui)
            ∧ pages ui' = pages ui ∧ widgets ui' = widgets ui
            ∧ last_open_list ui' = last_open_list ui).
Proof.
  unfold remove. destruct (is_selected row ui).
  - eapply reads_weaken; [apply reads_on_list_swiched|]. now intros ui' ->.
  - now apply reads_ret.
Qed.

(** *** Rows that leave the sidebar *)

Lemma filter_keep_all {A} (P : A → Prop) `{∀ x, Decision (P x)} (l : list A) :
  (∀ x, x ∈ l → P x) → filter P l = l.
Proof.
  induction l as [|x l IH]; [done|]. intros Hall.
  rewrite filter_cons_True by (apply Hall; left).
  f_equal. apply IH. intros y Hy. apply Hall. now right.
Qed.

Lemma filter_drop_all {A} (P : A → Prop) `{∀ x, Decision (P x)} (l : list A) :
  (∀ x, x ∈ l → ¬ P x) → filter P l = [].
Proof.
  induction l as [|x l IH]; [done|]. intros Hall.
  rewrite filter_cons_False by (apply Hall; left).
  apply IH. intros y Hy. apply Hall. now right.
Qed.

Lemma get_lists_stack_remove (t : TaskList) (ui : Ui) :
  get_lists (stack_remove t ui)
    = filter (λ t', Nat.eqb (widget t') (widget t) = false) (get_lists ui).
Proof.
  unfold get_lists, stack_remove. simpl.
  induction (pages ui) as [|p ps IH]; [done|].
  rewrite filter_cons.
  destruct (decide (is_page_of t p = false)) as [Hkeep|Hdrop].
  - cbn [omap list_omap]. rewrite IH. unfold is_page_of in Hkeep.
    destruct (page_child p) as [t'|name]; [|done].
    now rewrite filter_cons_True.
  - rewrite IH. cbn [omap list_omap]. unfold is_page_of in Hdrop.
    destruct (page_child p) as [t'|name]; [|done].
    now rewrite filter_cons_False.
Qed.

Lemma task_lists_filter (x : TaskListsItem) (rs : list TaskListsItem) :
  task_list <$> filter (λ r, is_row r x = false) rs
    = filter (λ t, Nat.eqb (widget t) (widget (task_list x)) = false)
             (task_list <$> rs).
Proof.
  induction rs as [|r rs IH]; [done|]. rewrite fmap_cons, !filter_cons.
  unfold is_row at 1.
  destruct (decide (Nat.eqb (widget (task_list r)) (widget (task_list x)) = false)).
  - now rewrite fmap_cons, IH.
  - exact IH.
Qed.

Lemma remove_one_row (a b : list TaskListsItem) (x : TaskListsItem) :
  (∀ y, y ∈ a ++ b → widget (task_list y) ≠ widget (task_list x)) →
  filter (λ r, is_row r x = false) (a ++ x :: b) = a ++ b.
Proof.
  intros Hne. rewrite filter_app, filter_cons_False.
  - rewrite <- filter_app. apply filter_keep_all.
    intros y Hy. unfold is_row. now apply Nat.eqb_neq, Hne.
  - unfold is_row. now rewrite Nat.eqb_refl.
Qed.

Lemma row_widgets_distinct (a b : list TaskListsItem) (x : TaskListsItem) :
  NoDup (row_widgets (a ++ x :: b)) →
  ∀ y, y ∈ a ++ b → widget (task_list y) ≠ widget (task_list x).
Proof.
  unfold row_widgets. rewrite fmap_app, fmap_cons.
  intros (Ha & Hab & Hb)%NoDup_app y Hy Heq.
  apply NoDup_cons in Hb as [Hxb _].
  apply elem_of_app in Hy as [Hy|Hy].
  - apply (Hab (widget (task_list y))).
    + apply list_elem_of_fmap. eauto.
    + rewrite Heq. left.
  - apply Hxb. rewrite <- Heq. apply list_elem_of_fmap. eauto.
Qed.

Lemma consistent_filter (P : TaskListsItem → Prop) `{∀ x, Decision (P x)}
    (ui ui' : Ui) :
  consistent ui → rows ui' = filter P (rows ui) →
  get_lists ui' = task_list <$> rows ui' → widgets ui' = widgets ui →
  consistent ui'.
Proof.
  intros (Hnd & Hlt & _) Hrows Hpages Hw. split; [|split; [|done]].
  - rewrite Hrows. unfold row_widgets.
    eapply sublist_NoDup; [exact Hnd|].
    apply fmap_sublist. apply sublist_filter.
  - intros r. rewrite Hrows, Hw. intros [_ Hr]%list_elem_of_filter. now apply Hlt.
Qed.

(** The loop of lines 306-314 removes the rows whose uid no list has,
    with their pages, and keeps the other rows in their order. *)
Lemma reads_delete_rows (uids : list string) (ui : Ui) (w : World) :
  consistent ui →
  reads (for_fold (rows ui) (delete_row uids) ui) w
    (λ ui', rows ui' = filter (λ r, row_uid r ∈ uids) (rows ui)
            ∧ consistent ui' ∧ widgets ui' = widgets ui).
Proof.
  intros Hc.
  pose (inv := λ (done rest : list TaskListsItem) (ui' : Ui),
          done ++ rest = rows ui
          ∧ rows ui' = filter (λ r, row_uid r ∈ uids) done ++ rest
          ∧ get_lists ui' = task_list <$> rows ui'
          ∧ widgets ui' = widgets ui).
  eapply reads_weaken.
  - apply (reads_for_fold inv (delete_row uids) (rows ui) [] ui w).
    + destruct Hc as (_ & _ & Hp). now repeat split.
    + intros d x r ui1 w1 (Hsplit & Hrows & Hpages & Hw).
      unfold delete_row. destruct (bool_decide_reflect (row_uid x ∈ uids)) as [Hin|Hout].
      * apply reads_ret. unfold inv. rewrite <- app_assoc, filter_app.
        rewrite filter_cons_True, filter_nil by done.
        now rewrite <- app_assoc.
      * eapply reads_bind.
        -- instantiate (1 := λ ui2, rows ui2 = rows ui1
                                   ∧ get_lists ui2 = get_lists (stack_remove (task_list x) ui1)
                                   ∧ widgets ui2 = widgets ui1).
           assert (∀ row, reads (select_row row (stack_remove (task_list x) ui1)) w1
                     (λ ui2, rows ui2 = rows ui1
                             ∧ get_lists ui2 = get_lists (stack_remove (task_list x) ui1)
                             ∧ widgets ui2 = widgets ui1)) as Hsel.
           { intros row. eapply reads_weaken; [apply reads_select_row|].
             intros ui2 (Hr & Hp & Hw2 & _). unfold get_lists. now rewrite Hp. }
           destruct (prev_sibling x None (rows ui1)); [apply Hsel|].
           destruct (next_sibling x (rows ui1)); [apply Hsel|].
           now apply reads_ret.
        -- intros ui2 w2 _ (Hr2 & Hp2 & Hw2).
           eapply reads_weaken; [apply reads_remove|].
           intros ui3 (Hr3 & Hp3 & Hw3 & _). unfold inv.
           assert (rows ui3 = filter (λ r0, row_uid r0 ∈ uids) d ++ r) as Hrows3.
           { rewrite Hr3, Hr2, Hrows. apply remove_one_row.
             intros y Hy. apply (row_widgets_distinct d r x).
             - rewrite Hsplit. apply Hc.
             - apply elem_of_app in Hy as [Hy|Hy]; apply elem_of_app; [left|now right].
               now apply list_elem_of_filter in Hy as [_ Hy]. }
           split; [now rewrite <- app_assoc|]. split.
           { rewrite filter_app, filter_cons_False, filter_nil by done.
             now rewrite app_nil_r. }
           split; [|congruence].
           unfold get_lists at 1. rewrite Hp3. fold (get_lists ui2).
           rewrite Hp2, get_lists_stack_remove, Hpages, Hr3, Hr2.
           symmetry. apply task_lists_filter.
  - intros ui' (_ & Hrows & Hpages & Hw). rewrite app_nil_r in Hrows.
    split; [done|]. split; [|done].
    now apply (consistent_filter (λ r, row_uid r ∈ uids) ui ui').
Qed.

(** *** Rows that enter the sidebar *)

Lemma consistent_same (ui ui' : Ui) :
  rows ui' = rows ui → pages ui' = pages ui → widgets ui' = widgets ui →
  consistent ui → consistent ui'.
Proof.
  unfold consistent, get_lists. intros -> -> ->. done.
Qed.

(** [add_list] appends one row and one page for a new task list. *)
Lemma add_list_fields (name uid : string) (ui : Ui) :
  let row := (add_list name uid ui).1 in
  let ui' := (add_list name uid ui).2 in
  rows ui' = rows ui ++ [row] ∧ row_uid row = uid ∧ label row = name
  ∧ selected ui' = selected ui ∧ last_open_list ui' = last_open_list ui
  ∧ (consistent ui → consistent ui').
Proof.
  simpl. do 5 (split; [done|]). intros (Hnd & Hlt & Hpages).
  unfold consistent, get_lists, row_widgets. simpl.
  rewrite fmap_app, omap_app, fmap_app. simpl. split; [|split].
  - apply NoDup_app. split; [exact Hnd|]. split; [|apply NoDup_singleton].
    intros id (r & -> & Hr)%list_elem_of_fmap Hin.
    apply list_elem_of_singleton in Hin. specialize (Hlt r Hr). lia.
  - intros r [Hr| ->%list_elem_of_singleton]%elem_of_app.
    + specialize (Hlt r Hr). lia.
    + simpl. lia.
  - f_equal. exact Hpages.
Qed.

Lemma rows_of_app (rs rs' : list TaskListsItem) (ls ls' : list ListRow) :
  rows_of rs ls → rows_of rs' ls' → rows_of (rs ++ rs') (ls ++ ls').
Proof. unfold rows_of. intros H H'. now rewrite !fmap_app, H, H'. Qed.

(** The loop of lines 323-329 appends one row for each list whose uid
    is not among [old_uids]. *)
Lemma reads_create_rows (old_uids : list string) (new_lists : list ListRow)
    (ui : Ui) (w : World) :
  consistent ui →
  reads (for_fold new_lists (create_row old_uids) ui) w
    (λ ui', ∃ news,
       rows ui' = rows ui ++ news
       ∧ rows_of news (filter (λ l, list_row_uid l ∉ old_uids) new_lists)
       ∧ consistent ui').
Proof.
  intros Hc.
  pose (inv := λ (done rest : list ListRow) (ui' : Ui),
          ∃ news, rows ui' = rows ui ++ news
                  ∧ rows_of news (filter (λ l, list_row_uid l ∉ old_uids) done)
                  ∧ consistent ui').
  apply (reads_for_fold inv (create_row old_uids) new_lists [] ui w).
  - exists []. now rewrite app_nil_r.
  - intros d x r ui1 w1 (news & Hrows & Hnews & Hc1). unfold create_row.
    destruct (bool_decide_reflect (list_row_uid x ∈ old_uids)) as [Hin|Hout].
    + apply reads_ret. exists news. rewrite filter_app, filter_cons_False by tauto.
      now rewrite filter_nil, app_nil_r.
    + eapply reads_bind; [apply reads_debug|]. intros _ w2 _ _.
      destruct (add_list_fields (list_row_name x) (list_row_uid x) ui1)
        as (Hr & Huid & Hlabel & _ & _ & Hcons).
      destruct (add_list (list_row_name x) (list_row_uid x) ui1) as [row ui2].
      simpl in Hr, Huid, Hlabel, Hcons.
      eapply reads_bind; [apply reads_select_row|].
      intros ui3 w3 _ (Hr3 & Hp3 & Hw3 & _). apply reads_ret.
      exists (news ++ [row]). split; [|split].
      * simpl. rewrite Hr3, Hr, Hrows. now rewrite <- app_assoc.
      * rewrite filter_app, filter_cons_True, filter_nil by done.
        apply rows_of_app; [done|]. unfold rows_of. simpl. now rewrite Huid, Hlabel.
      * apply (consistent_same ui3); [done..|].
        apply (consistent_same ui2); auto.
Qed.

Lemma foldl_call_fields (ts : list TaskList) (ui : Ui) :
  let ui' := foldl (λ ui list, call (TaskListUpdateUi list) ui) ui ts in
  rows ui' = rows ui ∧ pages ui' = pages ui ∧ widgets ui' = widgets ui.
Proof.
  revert ui. induction ts as [|t ts IH]; intros ui; [done|]. simpl.
  destruct (IH (call (TaskListUpdateUi t) ui)) as (-> & -> & ->). done.
Qed.

Lemma rows_of_uids (rs : list TaskListsItem) (ls : list ListRow) :
  rows_of rs ls → row_uid <$> rs = list_row_uid <$> ls.
Proof.
  unfold rows_of. intros H. apply (f_equal (fmap fst)) in H.
  now rewrite <- !list_fmap_compose in H.
Qed.

Lemma reads_update_ui (ui : Ui) (w : World) :
  consistent ui →
  reads (Sidebar.update_ui ui) w
    (λ ui', ∃ news,
       let kept := filter (λ r, row_uid r ∈ list_row_uid <$> lists w) (rows ui) in
       rows ui' = kept ++ news
       ∧ rows_of news
           (filter (λ l, list_row_uid l ∉ row_uid <$> kept) (lists w))
       ∧ consistent ui'
       ∧ (status_visible ui' = true ↔ rows ui' = [])).
Proof.
  intros Hc. unfold Sidebar.update_ui.
  eapply reads_bind; [apply reads_debug|]. intros _ w1 Hs1 _.
  eapply reads_bind; [apply reads_get_lists_as_dicts|]. intros dicts w2 Hs2 ->.
  eapply reads_bind; [now apply reads_delete_rows|].
  intros ui1 w3 Hs3 (Hrows1 & Hc1 & Hw1).
  set (ui2 := foldl _ ui1 (get_lists ui1)).
  destruct (foldl_call_fields (get_lists ui1) ui1) as (Hr2 & Hp2 & Hw2).
  fold ui2 in Hr2, Hp2, Hw2.
  assert (consistent ui2) as Hc2 by now apply (consistent_same ui1).
  eapply reads_bind; [apply reads_get_lists_as_dicts|]. intros new_lists w4 Hs4 ->.
  eapply reads_bind; [now apply reads_create_rows|].
  intros ui3 w5 Hs5 (news & Hrows3 & Hnews & Hc3). apply reads_ret.
  assert (lists w3 = lists w ∧ lists w1 = lists w) as [Hl3 Hl1].
  { destruct Hs1 as (H1 & _), Hs2 as (H2 & _), Hs3 as (H3 & _). split; congruence. }
  rewrite Hl3, Hr2, Hrows1, Hl1 in Hnews. rewrite Hr2, Hrows1, Hl1 in Hrows3.
  exists news. cbv zeta.
  assert (∀ (b : bool) (u : Ui), rows (if b then call (SetVisibleChildName "status") u else u)
                        = rows u) as Hif by (now intros []).
  assert (∀ (b : bool) (u : Ui), consistent u →
            consistent (if b then call (SetVisibleChildName "status") u else u))
    as Hifc by (now intros []).
  assert (∀ (b : bool) (u : Ui),
            status_visible (if b then call (SetVisibleChildName "status") u else u)
            = status_visible u) as Hifs by (now intros []).
  rewrite Hif, Hifs. simpl. split; [done|]. split; [done|]. split.
  - apply Hifc. now apply (consistent_same ui3).
  - rewrite Nat.eqb_eq. now destruct (rows ui3).
Qed.

(** X6: [update_ui] keeps, in their order, the rows whose uid some
    stored list has, removes the others, and appends one row, with uid
    and name, for each stored list that had no row, in the order of the
    store. Rows and stack pages still correspond, the status page is
    visible exactly when no row is left, and the store is not changed. *)
Theorem update_ui_rows (ui : Ui) (w : World) :
  consistent ui →
  reads (Sidebar.update_ui ui) w
    (λ ui', ∃ news,
       let kept := filter (λ r, row_uid r ∈ list_row_uid <$> lists w) (rows ui) in
       rows ui' = kept ++ news
       ∧ rows_of news
           (filter (λ l, list_row_uid l ∉ row_uid <$> kept) (lists w))
       ∧ consistent ui'
       ∧ (status_visible ui' = true ↔ rows ui' = [])).
Proof. apply reads_update_ui. Qed.

Lemma update_ui_uids (ui : Ui) (w : World) :
  consistent ui →
  reads (Sidebar.update_ui ui) w
    (λ ui', (∀ u, u ∈ row_uid <$> rows ui' ↔ u ∈ list_row_uid <$> lists w)
            ∧ consistent ui'
            ∧ (status_visible ui' = true ↔ rows ui' = [])).
Proof.
  intros Hc. eapply reads_weaken; [now apply reads_update_ui|].
  intros ui' (news & Hrows & Hnews & Hc' & Hstatus). cbv zeta in *.
  split; [|done]. apply rows_of_uids in Hnews.
  intros u. rewrite Hrows, fmap_app, elem_of_app, Hnews. split.
  - intros [(r & -> & Hr)%list_elem_of_fmap|(l & -> & Hl)%list_elem_of_fmap].
    + now apply list_elem_of_filter in Hr as [Hr _].
    + apply list_elem_of_filter in Hl as [_ Hl]. apply list_elem_of_fmap. eauto.
  - intros Hu.
    destruct (decide (u ∈ row_uid <$>
                filter (λ r, row_uid r ∈ list_row_uid <$> lists w) (rows ui)))
      as [Hin|Hout]; [now left|right].
    apply list_elem_of_fmap in Hu as (l & -> & Hl).
    apply list_elem_of_fmap. exists l. split; [done|].
    now apply list_elem_of_filter.
Qed.

(** X7: after [update_ui] the sidebar has a row for a uid exactly when a
    stored list has that uid, whether the list is flagged deleted or
    not, and the status page is visible exactly when no list is stored. *)
Theorem update_ui_matches_store (ui : Ui) (w : World) :
  consistent ui →
  reads (Sidebar.update_ui ui) w
    (λ ui', (∀ u, u ∈ row_uid <$> rows ui' ↔ u ∈ list_row_uid <$> lists w)
            ∧ (∀ l, l ∈ lists w → list_row_deleted l = true →
                    list_row_uid l ∈ row_uid <$> rows ui')
            ∧ (status_visible ui' = true ↔ lists w = [])).
Proof.
  intros Hc. eapply reads_weaken; [now apply update_ui_uids|].
  intros ui' (Huids & _ & Hstatus). split; [done|]. split.
  - intros l Hl _. apply Huids, list_elem_of_fmap. eauto.
  - rewrite Hstatus. split.
    + intros Hrows. destruct (lists w) as [|l ls]; [done|].
      assert (list_row_uid l ∈ row_uid <$> rows ui') as Hin.
      { apply Huids. left. }
      rewrite Hrows in Hin. inversion Hin.
    + intros Hlists. destruct (rows ui') as [|r rs]; [done|].
      assert (row_uid r ∈ list_row_uid <$> lists w) as Hin.
      { apply Huids. left. }
      rewrite Hlists in Hin. inversion Hin.
Qed.

(** X8: a second [update_ui] over the same lists changes neither the
    rows nor the status page. *)
Theorem update_ui_idempotent (ui : Ui) (w : World) :
  consistent ui →
  reads (Sidebar.update_ui ui) w
    (λ ui1, ∀ w1, lists w1 = lists w →
       reads (Sidebar.update_ui ui1) w1
         (λ ui2, rows ui2 = rows ui1
                 ∧ status_visible ui2 = status_visible ui1)).
Proof.
  intros Hc. eapply reads_weaken; [now apply update_ui_uids|].
  intros ui1 (Huids & Hc1 & Hstatus1) w1 Hw1.
  eapply reads_weaken; [now apply reads_update_ui|].
  intros ui2 (news & Hrows & Hnews & _ & Hstatus2). cbv zeta in *.
  rewrite Hw1 in Hrows, Hnews.
  assert (filter (λ r, row_uid r ∈ list_row_uid <$> lists w) (rows ui1) = rows ui1)
    as Hkept.
  { apply filter_keep_all. intros r Hr. apply Huids, list_elem_of_fmap. eauto. }
  rewrite Hkept in Hrows, Hnews.
  assert (news = []) as ->.
  { assert (filter (λ l, list_row_uid l ∉ row_uid <$> rows ui1) (lists w) = [])
      as Hnone.
    { apply filter_drop_all. intros l Hl Hout.
      apply Hout, Huids, list_elem_of_fmap. eauto. }
    rewrite Hnone in Hnews. apply rows_of_uids in Hnews. now destruct news. }
  rewrite app_nil_r in Hrows. split; [done|].
  destruct (status_visible ui2), (status_visible ui1); try done.
  - symmetry. apply Hstatus1. rewrite <- Hrows. now apply Hstatus2.
  - apply Hstatus2. rewrite Hrows. now apply Hstatus1.
Qed.

(** *** The rows made at start-up *)

Lemma reads_load_lists (ui : Ui) (w : World) :
  reads (_load_lists ui) w
    (λ ui', ∃ news,
       let shown := filter (λ l, list_row_deleted l = false) (lists w) in
       rows ui' = rows ui ++ news
       ∧ rows_of news shown
       ∧ (consistent ui → consistent ui')
       ∧ (status_visible ui' = true ↔ shown = [])
       ∧ last_open_list ui' = last_open_list ui
       ∧ (selected ui = None →
          match selected ui' with
          | Some r => r ∈ news ∧ label r = last_open_list ui
          | None => ∀ l, l ∈ shown → list_row_name l ≠ last_open_list ui
          end)).
Proof.
  unfold _load_lists.
  eapply reads_bind; [apply reads_get_lists_as_dicts|]. intros dicts w1 _ ->.
  set (shown := filter (λ l, list_row_deleted l = false) (lists w)).
  pose (inv := λ (done rest : list ListRow) (ui' : Ui),
          ∃ news, rows ui' = rows ui ++ news
                  ∧ rows_of news done
                  ∧ (consistent ui → consistent ui')
                  ∧ last_open_list ui' = last_open_list ui
                  ∧ (selected ui = None →
                     match selected ui' with
                     | Some r => r ∈ news ∧ label r = last_open_list ui
                     | None => ∀ l, l ∈ done → list_row_name l ≠ last_open_list ui
                     end)).
  eapply reads_bind.
  - apply (reads_for_fold inv _ shown [] ui w1).
    + exists []. rewrite app_nil_r. do 4 (split; [done|]).
      intros Hnone. rewrite Hnone. intros l Hl. inversion Hl.
    + intros d x r ui1 w2 (news & Hrows & Hnews & Hc & Hopen & Hsel).
      destruct (add_list_fields (list_row_name x) (list_row_uid x) ui1)
        as (Hr & Huid & Hlabel & Hsel2 & Hopen2 & Hcons).
      destruct (add_list (list_row_name x) (list_row_uid x) ui1) as [row ui2].
      simpl in Hr, Huid, Hlabel, Hsel2, Hopen2, Hcons.
      assert (rows_of (news ++ [row]) (d ++ [x])) as Hnews2.
      { apply rows_of_app; [done|]. unfold rows_of. simpl. now rewrite Huid, Hlabel. }
      destruct (String.eqb_spec (last_open_list ui2) (list_row_name x)) as [Heq|Hne].
      * eapply reads_weaken; [apply reads_select_row|].
        intros ui3 (Hr3 & Hp3 & Hw3 & Hs3). exists (news ++ [row]).
        split; [now rewrite Hr3, Hr, Hrows, <- app_assoc|]. split; [done|].
        split; [intros Hcu; apply (consistent_same ui2); auto|].
        destruct (is_selected row ui2) eqn:Hsel_row.
        -- subst ui3. split; [congruence|]. intros Hnone. specialize (Hsel Hnone).
           rewrite Hsel2. unfold is_selected in Hsel_row. rewrite Hsel2 in Hsel_row.
           destruct (selected ui1) as [r'|]; [|done].
           destruct Hsel as [Hin Hl]. split; [|done]. apply elem_of_app. now left.
        -- destruct Hs3 as [Hs3 Ho3]. split; [congruence|]. intros _.
           rewrite Hs3. split; [apply elem_of_app; right; left|]. congruence.
      * apply reads_ret. exists (news ++ [row]).
        split; [now rewrite Hr, Hrows, <- app_assoc|]. split; [done|].
        split; [auto|]. split; [congruence|]. intros Hnone. specialize (Hsel Hnone).
        rewrite Hsel2. destruct (selected ui1) as [r'|].
        -- destruct Hsel as [Hin Hl]. split; [|done]. apply elem_of_app. now left.
        -- intros l [Hl| ->%list_elem_of_singleton]%elem_of_app; [now apply Hsel|].
           congruence.
  - intros ui1 w2 _ (news & Hrows & Hnews & Hc & Hopen & Hsel). apply reads_ret.
    exists news. cbv zeta. fold shown. simpl.
    split; [done|]. split; [done|]. split; [|split; [|split; [done|done]]].
    + intros Hc0. apply (consistent_same ui1); auto.
    + rewrite Nat.eqb_eq. now destruct shown.
Qed.

(** X9: [_load_lists] appends one row, with uid and name, for each
    stored list that is not flagged deleted, in the order of the store,
    and none for a deleted list. Rows and stack pages still correspond,
    and the status page is visible exactly when no such list exists. *)
Theorem load_lists_rows (ui : Ui) (w : World) :
  consistent ui →
  reads (_load_lists ui) w
    (λ ui', ∃ news,
       let shown := filter (λ l, list_row_deleted l = false) (lists w) in
       rows ui' = rows ui ++ news
       ∧ rows_of news shown
       ∧ consistent ui'
       ∧ (status_visible ui' = true ↔ shown = [])).
Proof.
  intros Hc. eapply reads_weaken; [apply reads_load_lists|].
  intros ui' (news & Hrows & Hnews & Hc' & Hstatus & _). exists news. auto.
Qed.


(** X11: a list flagged deleted, whose uid no other list shares, gets no
    row from [_load_lists] in an empty sidebar, and gets one from the
    next [update_ui]: the two methods disagree on deleted lists. *)
Theorem deleted_list_shown_by_update_ui (ui : Ui) (w : World) (l : ListRow) :
  consistent ui → rows ui = [] →
  l ∈ lists w → list_row_deleted l = true →
  (∀ l', l' ∈ lists w → list_row_deleted l' = false →
         list_row_uid l' ≠ list_row_uid l) →
  reads (_load_lists ui) w
    (λ ui1, (list_row_uid l ∉ row_uid <$> rows ui1)
            ∧ ∀ w1, lists w1 = lists w →
                reads (Sidebar.update_ui ui1) w1
                  (λ ui2, list_row_uid l ∈ row_uid <$> rows ui2)).
Proof.
  intros Hc Hempty Hl Hdel Huniq.
  eapply reads_weaken; [apply reads_load_lists|].
  intros ui1 (news & Hrows & Hnews & Hc1 & _). cbv zeta in *.
  rewrite Hempty in Hrows. simpl in Hrows. subst news. split.
  - apply rows_of_uids in Hnews. rewrite Hnews.
    intros (l' & Heq & [Hd Hin]%list_elem_of_filter)%list_elem_of_fmap.
    now apply (Huniq l').
  - intros w1 Hw1. eapply reads_weaken; [apply update_ui_uids; auto|].
    intros ui2 (Huids & _). apply Huids. rewrite Hw1.
    apply list_elem_of_fmap. eauto.
Qed.

(** *** The dialog that adds a list *)

Import on_add_btn_clicked.



Lemma all_in_strip (chars s : string) : all_in chars s = true → strip chars s = "".
Proof.
  intros Hall. unfold strip.
  change s with ("" +:+ s). now rewrite rstrip_app_all.
Qed.

Lemma existsb_eqb_names (n : string) (names : list string) :
  existsb (String.eqb n) names = true ↔ n ∈ names.
Proof.
  induction names as [|m names IH]; simpl.
  - split; [discriminate|]. intros H. inversion H.
  - rewrite orb_true_iff, IH, String.eqb_eq, elem_of_cons. tauto.
Qed.

Lemma reads_entry_changed (text : string) (w : World) :
  reads (_entry_changed text) w
    (λ b, b = true ↔ strip blanks text ≠ ""
                     ∧ ∀ l, l ∈ lists w → list_row_name l ≠ strip blanks text).
Proof.
  unfold _entry_changed.
  eapply reads_bind; [apply reads_get_lists_as_dicts|]. intros dicts w1 _ ->.
  apply reads_ret.
  rewrite andb_true_iff, !negb_true_iff, String.eqb_neq.
  rewrite <- not_true_iff_false, existsb_eqb_names.
  split; intros [Hne Hnames]; (split; [done|]).
  - intros l Hl Heq. apply Hnames. apply list_elem_of_fmap. eauto.
  - intros (l & Heq & Hl)%list_elem_of_fmap. now apply (Hnames l).
Qed.

(** X12: the response "add" is enabled exactly when the text, without
    the spaces, tabs and line feeds at its ends, is not empty and is not
    the name of a stored list; a text of such characters only never
    enables it, and the name of a list flagged deleted blocks it too. *)
Theorem add_enabled_iff (text : string) (w : World) :
  reads (_entry_changed text) w
    (λ b, (b = true ↔ strip blanks text ≠ ""
                      ∧ ∀ l, l ∈ lists w → list_row_name l ≠ strip blanks text)
          ∧ (all_in blanks text = true → b = false)
          ∧ (∀ l, l ∈ lists w → list_row_deleted l = true →
                  list_row_name l = strip blanks text → b = false)).
Proof.
  eapply reads_weaken; [apply reads_entry_changed|].
  intros b Hb. split; [done|]. split.
  - intros Hall. apply not_true_iff_false. intros [Hne _]%Hb.
    now rewrite all_in_strip in Hne.
  - intros l Hl _ Hname. apply not_true_iff_false. intros [_ Hnames]%Hb.
    now apply (Hnames l).
Qed.




(** ** The page of to-dos *)

Section LoadTodosProperties.

Context {Value : Type}.

Import TodoList.

Lemma dict_get_app_fresh {A} (key : string) (d d' : Dict A) :
  key ∉ d.*1 → dict_get key (d ++ d') = dict_get key d'.
Proof.
  induction d as [|[k a] d IH]; [done|]. simpl. intros Hk.
  destruct (String.eqb_spec k key) as [->|_].
  - exfalso. apply Hk. left.
  - apply IH. intros Hin. apply Hk. now right.
Qed.

Lemma add_todos_run (before todos rest : Dict (Dict Value))
    (ws page : list (Todo Value)) :
  NoDup (before ++ todos ++ rest).*1 →
  widgets_of Value todos ws →
  add_todos Value (todos ++ rest).*1 (before ++ todos ++ rest) page
    = add_todos Value rest.*1 (before ++ todos ++ rest) (page ++ ws).
Proof.
  intros Hnd Hws. revert before page Hnd.
  induction Hws as [|[k e] t todos ws (sub & Hsub & ->) _ IH]; intros before page Hnd.
  - now rewrite app_nil_r.
  - simpl in Hsub. cbn [fmap list_fmap app fst add_todos].
    assert (dict_get k (before ++ (k, e) :: todos ++ rest) = Some e) as ->.
    { rewrite dict_get_app_fresh.
      - simpl. now rewrite String.eqb_refl.
      - rewrite fmap_app in Hnd. apply NoDup_app in Hnd as (_ & Hfresh & _).
        intros Hin. apply (Hfresh k Hin). left. }
    rewrite Hsub.
    replace (before ++ (k, e) :: todos ++ rest)
      with ((before ++ [(k, e)]) ++ todos ++ rest) by now rewrite <- app_assoc.
    rewrite IH.
    + now rewrite <- (app_assoc page).
    + now rewrite <- app_assoc.
Qed.

(** X15: [load_todos] adds one widget for each entry of ["todos"], in
    the order of the dict and with the entry's ["sub"], as long as the
    entries have that key. At the first entry without it the method
    raises [KeyError] and the widgets added before stay on the page; an
    empty dict adds nothing, and so does a missing ["todos"], which
    raises. *)
Theorem load_todos_adds_in_order (data : Dict (Dict (Dict Value)))
    (todos : Dict (Dict Value)) (page ws : list (Todo Value)) :
  dict_get "todos" data = Some (todos) →
  NoDup todos.*1 →
  (widgets_of Value todos ws →
   load_todos Value data page = (None, page ++ ws))
  ∧ (∀ done k e rest,
       todos = done ++ (k, e) :: rest → widgets_of Value done ws →
       dict_get "sub" e = None →
       load_todos Value data page = (Some (KeyError "sub"), page ++ ws)).
Proof.
  intros Hdata Hnd. unfold load_todos. rewrite Hdata. split.
  - intros Hws. destruct todos as [|e todos].
    + inversion Hws. now rewrite app_nil_r.
    + pose proof (add_todos_run [] (e :: todos) [] ws page) as Hrun.
      rewrite !app_nil_r in Hrun. simpl in Hrun. now apply Hrun.
  - intros done k e rest -> Hws Hsub.
    destruct (done ++ (k, e) :: rest) as [|x xs] eqn:Hsplit; [now destruct done|].
    rewrite <- Hsplit in *. clear x xs Hsplit.
    pose proof (add_todos_run [] done ((k, e) :: rest) ws page Hnd Hws) as Hrun.
    simpl in Hrun. rewrite Hrun. cbn [fmap list_fmap fst add_todos].
    rewrite dict_get_app_fresh.
    + simpl. now rewrite String.eqb_refl, Hsub.
    + rewrite fmap_app in Hnd. apply NoDup_app in Hnd as (_ & Hfresh & _).
      intros Hin. apply (Hfresh k Hin). left.
Qed.

End LoadTodosProperties.

(** ** The further properties at sample data *)

Import Samples MoreSamples.

Lemma dates_have_no_Z_at_the_ends_witness :
  first_kept "Z" "20240101T120000" = true ∧ last_kept "Z" "20240101T120000" = true.
Proof.
  apply (dates_have_no_Z_at_the_ends todo_report "20240101T120000").
  left. reflexivity.
Defined.

Lemma fallback_name_shape_witness :
  ∃ name,
    list_name calendar_unnamed file_basics = Single (vText name)
    ∧ String.prefix name (get_basename file_basics) = true
    ∧ last_kept ".ics" name = true
    ∧ ∀ stem, get_basename file_basics = stem +:+ ".ics" →
              (name = stem ↔ last_kept ".ics" stem = true).
Proof. apply (fallback_name_shape calendar_unnamed file_basics). reflexivity. Defined.

Lemma repeated_categories_flatten_witness :
  import_tags repr_object todo_two_categories = Ok "work,urgent,home".
Proof.
  apply (proj1 (repeated_categories_flatten repr_object todo_two_categories
                  [["work"; "urgent"]; ["home"]] eq_refl
                  ltac:(repeat constructor; discriminate))).
Defined.

Lemma importable_document_is_imported_witness :
  (∃ w', TaskLists._confirm parse repr_object (Ok file_report) world_empty
           = (Ok Imported, w')
         ∧ length (lists w') = 1%nat ∧ length (tasks w') = 2%nat
         ∧ syncs (trace w') = 1%nat)
  ∧ (∃ w', TaskLists._confirm parse_empty repr_object (Ok file_report) world_empty
             = (Ok Imported, w')
           ∧ length (lists w') = 1%nat ∧ length (tasks w') = 0%nat
           ∧ syncs (trace w') = 1%nat).
Proof.
  split.
  - apply (importable_document_is_imported parse repr_object file_report
             world_empty "BEGIN:VCALENDAR report" calendar_report "Groceries");
      try reflexivity.
    repeat constructor; (eexists; reflexivity) || (right; eexists; reflexivity).
  - apply (importable_document_is_imported parse_empty repr_object file_report
             world_empty "BEGIN:VCALENDAR report" calendar_empty "Empty");
      try reflexivity.
    constructor.
Defined.

Lemma ui_stale_consistent : consistent ui_stale.
Proof.
  split; [|split].
  - apply (bool_decide_unpack _). reflexivity.
  - intros r Hr. simpl in Hr.
    apply elem_of_cons in Hr as [->|Hr]; [simpl; lia|].
    apply list_elem_of_singleton in Hr as ->. simpl. lia.
  - reflexivity.
Qed.

Lemma ui_start_consistent : consistent ui_start.
Proof.
  split; [|split].
  - apply NoDup_nil_2.
  - intros r Hr. inversion Hr.
  - reflexivity.
Qed.

Lemma update_ui_rows_witness :
  reads (Sidebar.update_ui ui_stale) world_two_lists
    (λ ui', ∃ news,
       let kept := filter (λ r, row_uid r ∈ list_row_uid <$> lists world_two_lists)
                          (rows ui_stale) in
       rows ui' = kept ++ news
       ∧ rows_of news
           (filter (λ l, list_row_uid l ∉ row_uid <$> kept) (lists world_two_lists))
       ∧ consistent ui'
       ∧ (status_visible ui' = true ↔ rows ui' = [])).
Proof. apply (update_ui_rows ui_stale world_two_lists ui_stale_consistent). Defined.

Lemma update_ui_matches_store_witness :
  reads (Sidebar.update_ui ui_stale) world_two_lists
    (λ ui', (∀ u, u ∈ row_uid <$> rows ui'
                  ↔ u ∈ list_row_uid <$> lists world_two_lists)
            ∧ (∀ l, l ∈ lists world_two_lists → list_row_deleted l = true →
                    list_row_uid l ∈ row_uid <$> rows ui')
            ∧ (status_visible ui' = true ↔ lists world_two_lists = [])).
Proof.
  apply (update_ui_matches_store ui_stale world_two_lists ui_stale_consistent).
Defined.

Lemma update_ui_idempotent_witness :
  reads (Sidebar.update_ui ui_stale) world_two_lists
    (λ ui1, ∀ w1, lists w1 = lists world_two_lists →
       reads (Sidebar.update_ui ui1) w1
         (λ ui2, rows ui2 = rows ui1 ∧ status_visible ui2 = status_visible ui1)).
Proof.
  apply (update_ui_idempotent ui_stale world_two_lists ui_stale_consistent).
Defined.

Lemma load_lists_rows_witness :
  reads (_load_lists ui_start) world_two_lists
    (λ ui', ∃ news,
       let shown := filter (λ l, list_row_deleted l = false)
                           (lists world_two_lists) in
       rows ui' = rows ui_start ++ news
       ∧ rows_of news shown
       ∧ consistent ui'
       ∧ (status_visible ui' = true ↔ shown = [])).
Proof. apply (load_lists_rows ui_start world_two_lists ui_start_consistent). Defined.


Lemma deleted_list_shown_by_update_ui_witness :
  reads (_load_lists ui_start) world_two_lists
    (λ ui1, ("list-1" ∉ row_uid <$> rows ui1)
            ∧ ∀ w1, lists w1 = lists world_two_lists →
                reads (Sidebar.update_ui ui1) w1
                  (λ ui2, "list-1" ∈ row_uid <$> rows ui2)).
Proof.
  apply (deleted_list_shown_by_update_ui ui_start world_two_lists
           (mkListRow "list-1" "Old" true) ui_start_consistent eq_refl).
  - simpl. right. left.
  - reflexivity.
  - intros l' Hl' Hd. simpl in Hl'.
    apply elem_of_cons in Hl' as [->|Hl']; [discriminate|].
    apply list_elem_of_singleton in Hl' as ->. discriminate.
Defined.



Lemma load_todos_adds_in_order_witness :
  TodoList.load_todos nat data_two_todos []
    = (None, [TodoList.mkTodo nat "Buy milk" 2%nat; TodoList.mkTodo nat "Call Bob" 0%nat])
  ∧ TodoList.load_todos nat data_missing_sub []
    = (Some (TodoList.KeyError "sub"), [TodoList.mkTodo nat "Buy milk" 2%nat]).
Proof.
  split.
  - apply (proj1 (load_todos_adds_in_order data_two_todos
                    [("Buy milk", [("sub", 2%nat)]);
                     ("Call Bob", [("color", 1%nat); ("sub", 0%nat)])]
                    [] [TodoList.mkTodo nat "Buy milk" 2%nat;
                        TodoList.mkTodo nat "Call Bob" 0%nat]
                    eq_refl ltac:(apply (bool_decide_unpack _); reflexivity))).
    repeat constructor; eexists; split; reflexivity.
  - apply (proj2 (load_todos_adds_in_order data_missing_sub
                    [("Buy milk", [("sub", 2%nat)]);
                     ("Call Bob", [("color", 1%nat)]);
                     ("Write", [("sub", 1%nat)])]
                    [] [TodoList.mkTodo nat "Buy milk" 2%nat]
                    eq_refl ltac:(apply (bool_decide_unpack _); reflexivity))
             [("Buy milk", [("sub", 2%nat)])] "Call Bob" [("color", 1%nat)]
             [("Write", [("sub", 1%nat)])] eq_refl).
    + repeat constructor; eexists; split; reflexivity.
    + reflexivity.
Defined.

(** [update_ui] on the sample sidebar: the row of the list that is gone
    leaves, the row of the deleted list "list-1" is added and selected. *)
Example update_ui_stale :
  (λ r, (row_uid r, label r))
    <$> rows (match (Sidebar.update_ui ui_stale world_two_lists).1 with
              | Ok ui' => ui'
              | Raise _ => ui_stale
              end)
  = [("list-0", "Groceries"); ("list-1", "Old")].
Proof. vm_compute. reflexivity. Qed.
